(** * cursor-chat-browser: the statistics, database-entry and
      remove-empty-workspaces routes, and the entry page's key classifier.

    A shallow embedding of
      - src/app/database-entry/page.tsx            (formatDataType)
      - src/app/api/statistics/route.ts            (calculateDataSizeMB,
                                                    analyzeGlobalDatabase, GET)
      - src/app/api/database-entry/route.ts        (GET)
      - src/app/api/remove-empty-workspaces/route.ts (DELETE)

    Conventions of the embedding.

    Strings.  A JavaScript string is represented by its UTF-8 encoding, a
    [string] of bytes.  [startsWith] with an ASCII prefix, [===] and
    [split(':')] commute with that encoding (no multi-byte sequence contains
    the byte of ':'), and [Buffer.byteLength(s, 'utf8')] is the length of the
    representation.

    Sizes.  The code keeps sizes as [bytes / (1024 * 1024)], a double.  For a
    byte count below 2^53 that quotient and every sum of such quotients whose
    total stays below 2^53 bytes is exact, so a size in MB is represented by
    its numerator over 2^20, a byte count in [N].  The literal [0.1] is the
    double 3602879701896397 / 2^55 and is compared as such.

    Objects used as dictionaries.  [{}] inherits from [Object.prototype]; a
    read of a key that is not an own property falls through to it.  The own
    properties are a [gmap]; the fall-through is written out in [js_get]. *)

From Stdlib Require Import Strings.Ascii Sorting.Sorted Sorting.Permutation.
From stdpp Require Import gmap strings list fin_maps pretty.

Open Scope string_scope.

(** ** Strings *)

Module Js.

(** [s.startsWith(p)] *)
Definition startsWith (s p : string) : bool := String.prefix p s.

(** [s.split(':')[0]]: the part of [s] before its first colon, the whole
    of [s] when it has none. *)
Fixpoint split_colon_head (s : string) : string :=
  match s with
  | EmptyString => EmptyString
  | String c rest =>
      if Ascii.eqb c ":"%char then EmptyString
      else String c (split_colon_head rest)
  end.

(** Truthiness of a [string | null]: [null] and [''] are falsy. *)
Definition truthy (v : option string) : bool :=
  match v with
  | None => false
  | Some s => negb (String.eqb s "")
  end.

(** [Buffer.byteLength(s, 'utf8')] *)
Definition byteLength (s : string) : N := N.of_nat (String.length s).

End Js.

(** ** Key classifier (database-entry/page.tsx) *)

Inductive Category :=
| ChatMessage | Checkpoint | CodeDiff | MessageContext
| ComposerData | ChatData | ComposerMetadata | Unknown.

Definition formatDataType (key : string) : Category :=
  if Js.startsWith key "bubbleId:" then ChatMessage
  else if Js.startsWith key "checkpointId:" then Checkpoint
  else if Js.startsWith key "codeBlockDiff:" then CodeDiff
  else if Js.startsWith key "messageRequestContext:" then MessageContext
  else if Js.startsWith key "composerData:" then ComposerData
  else if String.eqb key "workbench.panel.aichat.view.aichat.chatdata" then ChatData
  else if String.eqb key "composer.composerData" then ComposerMetadata
  else Unknown.

(** The label shown for a category. *)
Definition category_label (c : Category) : string :=
  match c with
  | ChatMessage => "Chat Message"
  | Checkpoint => "Checkpoint"
  | CodeDiff => "Code Diff"
  | MessageContext => "Message Context"
  | ComposerData => "Composer Data"
  | ChatData => "Chat Data"
  | ComposerMetadata => "Composer Metadata"
  | Unknown => "Unknown"
  end.

(** The classifier as the specification words it: eight rules, the two exact
    matches first, the first rule that applies wins. *)
Inductive Rule :=
| Exact (s : string) (c : Category)
| Prefix (p : string) (c : Category).

Definition rule_applies (key : string) (r : Rule) : option Category :=
  match r with
  | Exact s c => if String.eqb key s then Some c else None
  | Prefix p c => if Js.startsWith key p then Some c else None
  end.

Definition spec_rules : list Rule :=
  [ Exact "workbench.panel.aichat.view.aichat.chatdata" ChatData;
    Exact "composer.composerData" ComposerMetadata;
    Prefix "bubbleId:" ChatMessage;
    Prefix "checkpointId:" Checkpoint;
    Prefix "codeBlockDiff:" CodeDiff;
    Prefix "messageRequestContext:" MessageContext;
    Prefix "composerData:" ComposerData ].

Fixpoint first_match (key : string) (rules : list Rule) : Category :=
  match rules with
  | [] => Unknown
  | r :: rest =>
      match rule_applies key r with
      | Some c => c
      | None => first_match key rest
      end
  end.

Definition spec_classify (key : string) : Category := first_match key spec_rules.

(** ** Rows of a key-value table *)

Record Row := mkRow { key : string; value : option string }.

(** The coarse type of a key: [key.split(':')[0] || 'unknown']. *)
Definition coarse_type (k : string) : string :=
  let head := Js.split_colon_head k in
  if String.eqb head "" then "unknown" else head.

(** [calculateDataSizeMB], as a byte count (numerator over 2^20). *)
Definition calculateDataSizeMB (data : option string) : N :=
  if negb (Js.truthy data) then 0%N
  else match data with
       | Some s => Js.byteLength s
       | None => 0%N
       end.

(** ** Plain objects used as dictionaries *)

(** The function-valued properties every plain object inherits from
    [Object.prototype], each with the [length] of the function. *)
Definition Object_prototype_functions : list (string * nat) :=
  [ ("constructor", 1); ("__defineGetter__", 2); ("__defineSetter__", 2);
    ("hasOwnProperty", 1); ("__lookupGetter__", 1); ("__lookupSetter__", 1);
    ("isPrototypeOf", 1); ("propertyIsEnumerable", 1); ("toString", 0);
    ("valueOf", 0); ("toLocaleString", 0) ].

Fixpoint assoc {A : Type} (k : string) (l : list (string * A)) : option A :=
  match l with
  | [] => None
  | (k', a) :: rest => if String.eqb k k' then Some a else assoc k rest
  end.

(** What [o[k]] evaluates to. *)
Inductive PropertyRead (V : Type) :=
| Own (v : V)                          (* an own property of [o] *)
| Inherited (f : string) (arity : nat) (* the function [Object.prototype[f]] *)
| InheritedProto                       (* [o.__proto__]: [Object.prototype] *)
| Undefined.
Arguments Own {V} v.
Arguments Inherited {V} f arity.
Arguments InheritedProto {V}.
Arguments Undefined {V}.

Definition js_get {V : Type} (o : gmap string V) (k : string) : PropertyRead V :=
  if String.eqb k "__proto__" then InheritedProto
  else match o !! k with
       | Some v => Own v
       | None =>
           match assoc k Object_prototype_functions with
           | Some n => Inherited k n
           | None => Undefined
           end
       end.

(** [o[k] = v] for a number or a string [v]: an own property is created or
    overwritten, except that the [__proto__] setter ignores such a [v]. *)
Definition js_set {V : Type} (o : gmap string V) (k : string) (v : V) : gmap string V :=
  if String.eqb k "__proto__" then o else <[k := v]> o.

(** The values the by-type dictionaries can hold: a number, or the string
    that [+] builds when its left operand is not a number, which is the text
    of that operand followed by the renderings of the numbers added. *)
Inductive TextHead :=
| SourceOf (f : string)   (* "function f() { [native code] }" *)
| ObjectObject.           (* "[object Object]" *)

Inductive Cell :=
| Num (n : N)
| Text (head : TextHead) (added : list N).

(** [(o[k] || 0) + n] *)
Definition or0_plus (r : PropertyRead Cell) (n : N) : Cell :=
  match r with
  | Own (Num c) => Num (c + n)
  | Own (Text h ns) => Text h (ns ++ [n])%list
  | Inherited f _ => Text (SourceOf f) [n]
  | InheritedProto => Text ObjectObject [n]
  | Undefined => Num (0 + n)
  end.

(** ** Global database analyzer (statistics/route.ts) *)

Record SizedEntry := mkSized { se_key : string; se_sizeMB : N; se_value : string }.

Record LargestEntry := mkLargest { le_key : string; le_sizeMB : N; le_type : string }.

(** The sizes are byte counts: [totalSizeMB = n] stands for the double
    [n / 2^20]. *)
Record GlobalDatabaseStats := mkStats {
  totalEntries : N;
  composerEntries : N;
  otherEntries : N;
  totalSizeMB : N;
  composerDataSizeMB : N;
  otherDataSizeMB : N;
  entriesByType : gmap string Cell;
  entriesSizeByType : gmap string Cell;
  largestEntries : list LargestEntry;
  sampleKeys : gmap string (list string)
}.

Definition initial_stats : GlobalDatabaseStats :=
  mkStats 0 0 0 0 0 0 ∅ ∅ [] ∅.

(** How a block of statements ends: normally, or by a [TypeError] thrown
    part-way; either way with the state reached. *)
Inductive Outcome (A : Type) :=
| Normal (a : A)
| Thrown (a : A).
Arguments Normal {A} a.
Arguments Thrown {A} a.

(** The loop state: the [stats] object and [allEntriesWithSize]. *)
Definition ScanState : Type := GlobalDatabaseStats * list SizedEntry.

(** One iteration of [for (const entry of allEntries)], lines 50 to 83. *)
Definition visit (st : ScanState) (entry : Row) : Outcome ScanState :=
  let '(stats, allEntriesWithSize) := st in
  let k := key entry in
  match value entry with
  | None => Normal st
  | Some v =>
    if negb (Js.truthy (Some v)) then Normal st
    else
      let sizeMB := calculateDataSizeMB (Some v) in
      let total := (totalSizeMB stats + sizeMB)%N in
      let all := (allEntriesWithSize ++ [mkSized k sizeMB v])%list in
      if Js.startsWith k "composerData:" then
        Normal (mkStats (totalEntries stats) (composerEntries stats + 1)
                  (otherEntries stats) total
                  (composerDataSizeMB stats + sizeMB) (otherDataSizeMB stats)
                  (entriesByType stats) (entriesSizeByType stats)
                  (largestEntries stats) (sampleKeys stats), all)
      else
        let keyType := coarse_type k in
        let byType :=
          js_set (entriesByType stats) keyType
                 (or0_plus (js_get (entriesByType stats) keyType) 1) in
        let sizeByType :=
          js_set (entriesSizeByType stats) keyType
                 (or0_plus (js_get (entriesSizeByType stats) keyType) sizeMB) in
        let samples :=
          match js_get (sampleKeys stats) keyType with
          | Undefined => <[keyType := []]> (sampleKeys stats)
          | _ => sampleKeys stats
          end in
        let result samples' :=
          (mkStats (totalEntries stats) (composerEntries stats)
             (otherEntries stats + 1) total
             (composerDataSizeMB stats) (otherDataSizeMB stats + sizeMB)
             byType sizeByType (largestEntries stats) samples', all) in
        match js_get samples keyType with
        | Own l =>
            if (length l <? 3)%nat
            then Normal (result (<[keyType := (l ++ [k])%list]> samples))
            else Normal (result samples)
        | Inherited _ arity =>
            (* a function has a [length] but no [push] *)
            if (arity <? 3)%nat then Thrown (result samples)
            else Normal (result samples)
        | InheritedProto =>
            (* [Object.prototype.length] is undefined, and undefined < 3 is false *)
            Normal (result samples)
        | Undefined => Thrown (result samples)
        end
  end.

Fixpoint scan (entries : list Row) (st : ScanState) : Outcome ScanState :=
  match entries with
  | [] => Normal st
  | entry :: rest =>
      match visit st entry with
      | Normal st' => scan rest st'
      | Thrown st' => Thrown st'
      end
  end.

(** [totalSize >= MIN_SIZE_MB] with [MIN_SIZE_MB = 0.1]: on a number the
    comparison of [b / 2^20] with the double 3602879701896397 / 2^55; a
    string that is no numeral converts to NaN and compares false. *)
Definition at_least_MIN_SIZE_MB (c : Cell) : bool :=
  match c with
  | Num b => (3602879701896397 <=? b * 2 ^ 35)%N
  | Text _ _ => false
  end.

(** [stats.entriesSizeByType[keyType] || 0], and whether it passes the
    threshold; an inherited function or object never does. *)
Definition retained_size (sizes : gmap string Cell) (keyType : string) : option Cell :=
  match js_get sizes keyType with
  | Own c => if at_least_MIN_SIZE_MB c then Some c else None
  | _ => None
  end.

(** [stats.sampleKeys[keyType] || []] *)
Definition samples_or_empty (samples : gmap string (list string)) (keyType : string) : list string :=
  match js_get samples keyType with
  | Own l => l
  | _ => []
  end.

(** The three dictionaries built by the loop over
    [Object.entries(stats.entriesByType)], lines 86 to 103. *)
Definition filteredEntriesByType (stats : GlobalDatabaseStats) : gmap string Cell :=
  map_imap (λ keyType count,
      match retained_size (entriesSizeByType stats) keyType with
      | Some _ => Some count
      | None => None
      end) (entriesByType stats).

Definition filteredEntriesSizeByType (stats : GlobalDatabaseStats) : gmap string Cell :=
  map_imap (λ keyType (_ : Cell), retained_size (entriesSizeByType stats) keyType)
           (entriesByType stats).

Definition filteredSampleKeys (stats : GlobalDatabaseStats) : gmap string (list string) :=
  map_imap (λ keyType (_ : Cell),
      match retained_size (entriesSizeByType stats) keyType with
      | Some _ => Some (samples_or_empty (sampleKeys stats) keyType)
      | None => None
      end) (entriesByType stats).

(** [Array.prototype.sort] with the comparator [(a, b) => b.sizeMB - a.sizeMB].
    The sort is stable, so the comparator determines its result; a stable
    insertion sort computes it. *)
Fixpoint insert_desc (e : SizedEntry) (sorted : list SizedEntry) : list SizedEntry :=
  match sorted with
  | [] => [e]
  | x :: rest =>
      if (se_sizeMB e <? se_sizeMB x)%N then x :: insert_desc e rest
      else e :: x :: rest
  end.

Definition sort_desc (l : list SizedEntry) : list SizedEntry :=
  foldr insert_desc [] l.

Definition to_largest (e : SizedEntry) : LargestEntry :=
  mkLargest (se_key e) (se_sizeMB e) (coarse_type (se_key e)).

(** Lines 45 to 113: everything in the [try] block after [db.close()].  A
    [TypeError] raised in the loop is caught by the [catch] of the
    function, which returns [stats] as mutated so far. *)
Definition analyze_entries (allEntries : list Row) : GlobalDatabaseStats :=
  let stats := mkStats (N.of_nat (length allEntries)) 0 0 0 0 0 ∅ ∅ [] ∅ in
  match scan allEntries (stats, []) with
  | Thrown (stats', _) => stats'
  | Normal (stats', allEntriesWithSize) =>
      mkStats (totalEntries stats') (composerEntries stats') (otherEntries stats')
        (totalSizeMB stats') (composerDataSizeMB stats') (otherDataSizeMB stats')
        (filteredEntriesByType stats')
        (filteredEntriesSizeByType stats')
        (map to_largest (take 10 (sort_desc allEntriesWithSize)))
        (filteredSampleKeys stats')
  end.

(** ** The platform *)

(** What the routes use of Node and of the JavaScript runtime without
    defining it.  [JSON_parse] returns [None] where [JSON.parse] throws a
    [SyntaxError].  [member_length f data] is the value of
    [data.f?.length || 0], and [folder_of data] that of [data.folder]; both
    are [None] where the property read throws, which is when [data] is
    [null].  [path_within p q] tells whether [q] lies in the tree rooted at
    [p], the tree that a recursive removal of [p] deletes. *)
Class Runtime := {
  path_join : list string → string;
  Json : Type;
  JSON_parse : string → option Json;
  member_length : string → Json → option N;
  folder_of : Json → option (option string);
  path_within : string → string → bool;
  path_within_refl : ∀ p, path_within p p = true
}.

(** A database file as the sqlite driver sees it: whether [open] and
    [close] succeed, and its tables; a statement on a missing table throws. *)
Record DbFile := mkDb {
  db_open_ok : bool;
  db_tables : gmap string (list Row);
  db_close_ok : bool
}.

Record Dirent := mkDirent { d_name : string; d_isDirectory : bool }.

(** What a request can read of the process environment and of the disk. *)
Record World := mkWorld {
  WORKSPACE_PATH : option string;
  existsSync : string → bool;
  readdir : string → option (list Dirent);
  readFile : string → option string;
  database : string → DbFile
}.

(** ** Effects: database handles and exceptions *)

Inductive Event :=
| Opened (path : string)
| QueriedAll (path table : string)
| QueriedOne (path table k : string)
| Closed (path : string).

(** The handles a request holds open, and the database calls it has made. *)
Record Io := mkIo { open_handles : list string; events : list Event }.

Inductive Error := SqliteError | FsError | SyntaxError | TypeError.

Inductive Result (A : Type) :=
| Ok (a : A)
| Exn (e : Error).
Arguments Ok {A} a.
Arguments Exn {A} e.

Definition M (A : Type) : Type := Io → Result A * Io.

#[global] Instance M_ret : MRet M := λ A a io, (Ok a, io).

#[global] Instance M_bind : MBind M := λ A B f m io,
  match m io with
  | (Ok a, io') => f a io'
  | (Exn e, io') => (Exn e, io')
  end.

Definition throw {A : Type} (e : Error) : M A := λ io, (Exn e, io).

(** [try { m } catch (e) { h e }] *)
Definition try_catch {A : Type} (m : M A) (h : Error → M A) : M A := λ io,
  match m io with
  | (Ok a, io') => (Ok a, io')
  | (Exn e, io') => h e io'
  end.

Definition lift {A : Type} (e : Error) (o : option A) : M A :=
  match o with
  | Some a => mret a
  | None => throw e
  end.

Fixpoint remove_first (p : string) (l : list string) : list string :=
  match l with
  | [] => []
  | q :: rest => if String.eqb p q then rest else q :: remove_first p rest
  end.

Definition record_event (e : Event) (io : Io) : Io :=
  mkIo (open_handles io) (events io ++ [e])%list.

Section Database.
Context (w : World).

(** [open({ filename, driver })] *)
Definition sqlite_open (filename : string) : M string := λ io,
  if db_open_ok (database w filename)
  then (Ok filename,
        mkIo (filename :: open_handles io) (events io ++ [Opened filename])%list)
  else (Exn SqliteError, io).

Definition select_from (db table : string) : M (list Row) :=
  lift SqliteError (db_tables (database w db) !! table).

(** [db.all(`SELECT [key], value FROM table`)] *)
Definition db_all (db table : string) : M (list Row) := λ io,
  select_from db table (record_event (QueriedAll db table) io).

(** [db.get(`SELECT ... FROM table WHERE [key] = ?`, [k])] *)
Definition db_get (db table k : string) : M (option Row) := λ io,
  (rows ← select_from db table;
   mret (List.find (λ r, String.eqb (key r) k) rows))
    (record_event (QueriedOne db table k) io).

(** [db.close()] *)
Definition db_close (db : string) : M unit := λ io,
  if db_close_ok (database w db)
  then (Ok (), mkIo (remove_first db (open_handles io)) (events io ++ [Closed db])%list)
  else (Exn SqliteError, io).

Definition fs_readdir (path : string) : M (list Dirent) :=
  lift FsError (readdir w path).

Definition fs_readFile (path : string) : M string :=
  lift FsError (readFile w path).

End Database.

(** ** Responses *)

Record WorkspaceStats := mkWorkspaceStats {
  ws_id : string;
  hasChats : bool;
  hasComposers : bool;
  chatCount : N;
  composerCount : N;
  folder : option string;
  chatDataSizeMB : N;
  ws_composerDataSizeMB : N;
  ws_totalSizeMB : N
}.

Record DatabaseStatistics := mkStatistics {
  totalWorkspaces : N;
  workspacesWithChats : N;
  workspacesWithComposers : N;
  workspacesWithBoth : N;
  workspacesWithNeither : N;
  workspacesWithOnlyChats : N;
  workspacesWithOnlyComposers : N;
  totalChats : N;
  totalComposers : N;
  totalWorkspaceDataSizeMB : N;
  workspaceDetails : list WorkspaceStats;
  globalDatabase : GlobalDatabaseStats
}.

Record RemovalError := mkRemovalError { re_workspaceId : string; re_error : string }.

Record RemovalReport := mkRemovalReport {
  success : bool;
  removedWorkspaces : list string;
  removedCount : N;
  errors : list RemovalError;
  message : string
}.

Section Routes.
Context `{Runtime}.

(** [parsedValue]: the decoded value, or the raw one when decoding throws. *)
Inductive ParsedValue :=
| Parsed (j : Json)
| Raw (v : option string).

Record EntryView := mkEntryView {
  ev_key : string;
  rawValue : option string;
  parsedValue : ParsedValue;
  ev_source : option string;
  size : N;
  sizeFormatted : string
}.

Inductive Body :=
| ErrorBody (error : string)
| StatisticsBody (s : DatabaseStatistics)
| EntryBody (e : EntryView)
| RemovalBody (r : RemovalReport).

(** [NextResponse.json(body, { status })]; the status defaults to 200. *)
Record Response := mkResponse { status : nat; body : Body }.

Context (w : World).

(** *** statistics/route.ts: analyzeGlobalDatabase *)

(** The [catch] of the function returns [stats]; an exception of [open],
    [db.all] or [db.close] leaves [stats] as initialised, and one raised
    later is accounted for in [analyze_entries]. *)
Definition analyzeGlobalDatabase (workspacePath : string) : M GlobalDatabaseStats :=
  let globalDbPath := path_join [workspacePath; ".."; "globalStorage"; "state.vscdb"] in
  if negb (existsSync w globalDbPath) then mret initial_stats
  else
    try_catch
      (db ← sqlite_open w globalDbPath;
       allEntries ← db_all w db "cursorDiskKV";
       db_close w db;;
       mret (analyze_entries allEntries))
      (λ _, mret initial_stats).

(** *** statistics/route.ts: GET *)

(** [!!result?.value] *)
Definition has_value (result : option Row) : bool :=
  match result with
  | Some row => Js.truthy (value row)
  | None => false
  end.

(** The inner [try] of the chat and composer blocks: the count and the
    size are assigned in that order after the parse, and keep their
    initial 0 when the block throws. *)
Definition count_and_size (member : string) (result : option Row) : M (N * N) :=
  if has_value result then
    match result with
    | Some (mkRow _ (Some v)) =>
        try_catch
          (data ← lift SyntaxError (JSON_parse v);
           count ← lift TypeError (member_length member data);
           mret (count, calculateDataSizeMB (Some v)))
          (λ _, mret (0%N, 0%N))
    | _ => mret (0%N, 0%N)
    end
  else mret (0%N, 0%N).

Definition read_workspace_folder (workspaceJsonPath : string) : M (option string) :=
  try_catch
    (text ← fs_readFile w workspaceJsonPath;
     workspaceData ← lift SyntaxError (JSON_parse text);
     lift TypeError (folder_of workspaceData))
    (λ _, mret None).

(** The body of [for (const entry of entries)], lines 180 to 259. *)
Definition visit_dirent (workspacePath : string)
    (workspaceDetails : list WorkspaceStats) (entry : Dirent) : M (list WorkspaceStats) :=
  if d_isDirectory entry then
    let dbPath := path_join [workspacePath; d_name entry; "state.vscdb"] in
    let workspaceJsonPath := path_join [workspacePath; d_name entry; "workspace.json"] in
    if negb (existsSync w dbPath) then mret workspaceDetails
    else
      try_catch
        (workspaceFolder ← read_workspace_folder workspaceJsonPath;
         db ← sqlite_open w dbPath;
         chatResult ← db_get w db "ItemTable" "workbench.panel.aichat.view.aichat.chatdata";
         '(chatCount, chatDataSizeMB) ← count_and_size "tabs" chatResult;
         composerResult ← db_get w db "ItemTable" "composer.composerData";
         '(composerCount, composerDataSizeMB) ← count_and_size "allComposers" composerResult;
         db_close w db;;
         mret (workspaceDetails ++
               [mkWorkspaceStats (d_name entry) (has_value chatResult)
                  (has_value composerResult) chatCount composerCount
                  workspaceFolder chatDataSizeMB composerDataSizeMB
                  (chatDataSizeMB + composerDataSizeMB)])%list)
        (λ _, mret workspaceDetails)
  else mret workspaceDetails.

Fixpoint visit_dirents (workspacePath : string)
    (workspaceDetails : list WorkspaceStats) (entries : list Dirent) : M (list WorkspaceStats) :=
  match entries with
  | [] => mret workspaceDetails
  | entry :: rest =>
      details ← visit_dirent workspacePath workspaceDetails entry;
      visit_dirents workspacePath details rest
  end.

Definition count_where (p : WorkspaceStats → bool) (l : list WorkspaceStats) : N :=
  N.of_nat (length (List.filter p l)).

Definition sum_of (f : WorkspaceStats → N) (l : list WorkspaceStats) : N :=
  fold_left (λ sum x, (sum + f x)%N) l 0%N.

Definition summarize (workspaceDetails : list WorkspaceStats)
    (globalDatabase : GlobalDatabaseStats) : DatabaseStatistics :=
  mkStatistics
    (N.of_nat (length workspaceDetails))
    (count_where hasChats workspaceDetails)
    (count_where hasComposers workspaceDetails)
    (count_where (λ x, hasChats x && hasComposers x) workspaceDetails)
    (count_where (λ x, negb (hasChats x) && negb (hasComposers x)) workspaceDetails)
    (count_where (λ x, hasChats x && negb (hasComposers x)) workspaceDetails)
    (count_where (λ x, negb (hasChats x) && hasComposers x) workspaceDetails)
    (sum_of chatCount workspaceDetails)
    (sum_of composerCount workspaceDetails)
    (sum_of ws_totalSizeMB workspaceDetails)
    workspaceDetails
    globalDatabase.

Definition not_configured : string :=
  "Workspace path not configured. Please configure it in the settings first.".

Definition GET_statistics : M Response :=
  try_catch
    (let workspacePath := default "" (WORKSPACE_PATH w) in
     if String.eqb workspacePath "" then
       mret (mkResponse 400 (ErrorBody not_configured))
     else
       entries ← fs_readdir w workspacePath;
       workspaceDetails ← visit_dirents workspacePath [] entries;
       globalDatabase ← analyzeGlobalDatabase workspacePath;
       mret (mkResponse 200 (StatisticsBody (summarize workspaceDetails globalDatabase))))
    (λ _, mret (mkResponse 500 (ErrorBody "Failed to get statistics"))).

(** *** database-entry/route.ts: GET *)

Record EntryRequest := mkEntryRequest {
  param_key : option string;      (* searchParams.get('key') *)
  param_source : option string    (* searchParams.get('source') *)
}.

(** The database file and the table a [source] designates: the two
    branches of lines 29 to 39. *)
Definition locate (workspacePath : string) (source : option string) : string * string :=
  if bool_decide (source = Some "global") then
    (path_join [workspacePath; ".."; "globalStorage"; "state.vscdb"], "cursorDiskKV")
  else
    (path_join [workspacePath; default "" source; "state.vscdb"], "ItemTable").

(** [Buffer.byteLength(v, 'utf8')] throws unless [v] is a string. *)
Definition Buffer_byteLength (v : option string) : M N :=
  match v with
  | Some s => mret (Js.byteLength s)
  | None => throw TypeError
  end.

(** [JSON.parse(v)] first converts [v] to a string; [null] becomes "null". *)
Definition parse_or_raw (v : option string) : ParsedValue :=
  match JSON_parse (default "null" v) with
  | Some j => Parsed j
  | None => Raw v
  end.

Definition two_digits (n : N) : string :=
  if (n <? 10)%N then "0" +:+ pretty n else pretty n.

(** [(bytes / (1024 * 1024)).toFixed(2)]: the nearest multiple of 0.01, the
    larger one on a tie. *)
Definition toFixed2_MB (bytes : N) : string :=
  let hundredths := ((200 * bytes + 2 ^ 20) / 2 ^ 21)%N in
  pretty (hundredths / 100)%N +:+ "." +:+ two_digits (hundredths mod 100)%N.

Definition GET_database_entry (request : EntryRequest) : M Response :=
  try_catch
    (let k := default "" (param_key request) in
     let source := param_source request in
     if String.eqb k "" then
       mret (mkResponse 400 (ErrorBody "Key parameter is required"))
     else
       let workspacePath := default "" (WORKSPACE_PATH w) in
       if String.eqb workspacePath "" then
         mret (mkResponse 400 (ErrorBody not_configured))
       else
         let '(dbPath, tableName) := locate workspacePath source in
         if negb (existsSync w dbPath) then
           mret (mkResponse 404 (ErrorBody "Database not found"))
         else
           db ← sqlite_open w dbPath;
           result ← db_get w db tableName k;
           db_close w db;;
           match result with
           | None => mret (mkResponse 404 (ErrorBody "Entry not found"))
           | Some row =>
               let parsed := parse_or_raw (value row) in
               bytes ← Buffer_byteLength (value row);
               bytes' ← Buffer_byteLength (value row);
               mret (mkResponse 200 (EntryBody
                       (mkEntryView (key row) (value row) parsed source bytes
                          (toFixed2_MB bytes' +:+ " MB"))))
           end)
    (λ _, mret (mkResponse 500 (ErrorBody "Failed to get database entry"))).

(** *** remove-empty-workspaces/route.ts: DELETE *)

(** The disk as the pruner sees it: the paths [fs.access] finds, and the
    paths whose removal the system refuses, each with the message of the
    error [fs.rm] then throws. *)
Record FileSystem := mkFs {
  present : gset string;
  refused : gmap string string
}.

(** [fs.access(path)] succeeds. *)
Definition fs_access (fs : FileSystem) (path : string) : bool :=
  bool_decide (path ∈ present fs).

(** [fs.rm(path, { recursive: true, force: true })]: the message of the
    error thrown, or the disk without the tree rooted at [path]. *)
Definition fs_rm (fs : FileSystem) (path : string) : string + FileSystem :=
  match refused fs !! path with
  | Some msg => inl msg
  | None =>
      inr (mkFs (filter (λ q, path_within path q = false) (present fs)) (refused fs))
  end.

Record PruneState := mkPrune {
  disk : FileSystem;
  removed : list string;
  failures : list RemovalError
}.

(** The body of [for (const workspaceId of workspaceIds)], lines 28 to 50. *)
Definition remove_workspace (workspacePath : string)
    (st : PruneState) (workspaceId : string) : PruneState :=
  let workspaceDir := path_join [workspacePath; workspaceId] in
  if negb (fs_access (disk st) workspaceDir) then
    mkPrune (disk st) (removed st)
      (failures st ++ [mkRemovalError workspaceId "Workspace directory not found"])%list
  else
    match fs_rm (disk st) workspaceDir with
    | inr disk' => mkPrune disk' (removed st ++ [workspaceId])%list (failures st)
    | inl msg =>
        mkPrune (disk st) (removed st)
          (failures st ++ [mkRemovalError workspaceId msg])%list
    end.

Definition remove_workspaces (workspacePath : string)
    (workspaceIds : list string) (st : PruneState) : PruneState :=
  fold_left (remove_workspace workspacePath) workspaceIds st.

(** What [request.json()] and the destructuring of its result give. *)
Inductive RemovalRequest :=
| Unreadable (msg : string)          (* one of the two throws *)
| NoIdList                           (* [workspaceIds] is missing or no array *)
| IdList (workspaceIds : list string).

Definition report (st : PruneState) : RemovalReport :=
  mkRemovalReport true (removed st) (N.of_nat (length (removed st))) (failures st)
    ("Successfully removed " +:+ pretty (length (removed st)) +:+ " workspace(s)").

Definition DELETE (request : RemovalRequest) (fs : FileSystem) : Response * FileSystem :=
  let workspacePath := default "" (WORKSPACE_PATH w) in
  if String.eqb workspacePath "" then
    (mkResponse 400 (ErrorBody
       "Workspace path not configured. Please set it in the configuration page."), fs)
  else
    match request with
    | Unreadable msg =>
        (mkResponse 500 (ErrorBody ("Failed to remove workspaces: " +:+ msg)), fs)
    | NoIdList =>
        (mkResponse 400 (ErrorBody "Invalid request. Expected workspaceIds array."), fs)
    | IdList workspaceIds =>
        let st := remove_workspaces workspacePath workspaceIds (mkPrune fs [] []) in
        (mkResponse 200 (RemovalBody (report st)), disk st)
    end.

End Routes.

(** ** Vocabulary of the statements *)

(** A row the analyzer counts: its value is neither [null] nor empty. *)
Definition counted (r : Row) : bool := Js.truthy (value r).

Definition is_composer (r : Row) : bool := Js.startsWith (key r) "composerData:".

Definition bytes_of (r : Row) : N := calculateDataSizeMB (value r).

Definition sum_bytes (rows : list Row) : N :=
  foldr (λ r total, (bytes_of r + total)%N) 0%N rows.

(** The counted rows outside the composer population whose coarse type is
    [keyType], in scan order. *)
Definition members (keyType : string) (rows : list Row) : list Row :=
  List.filter
    (λ r, counted r && negb (is_composer r) && String.eqb (coarse_type (key r)) keyType)
    rows.

(** What [allEntriesWithSize] records of a counted row. *)
Definition sized (r : Row) : SizedEntry :=
  mkSized (key r) (bytes_of r) (default "" (value r)).

Definition names_prototype_function (keyType : string) : bool :=
  match assoc keyType Object_prototype_functions with
  | Some _ => true
  | None => false
  end.

(** A row at which the loop throws: a counted row outside the composer
    population whose coarse type names a function of [Object.prototype]. *)
Definition trips (r : Row) : bool :=
  counted r && negb (is_composer r) && names_prototype_function (coarse_type (key r)).

(** No row makes the loop throw. *)
Definition scannable (rows : list Row) : bool := forallb (λ r, negb (trips r)) rows.

(** What a by-type dictionary holds under [keyType] after a scan that
    completes: nothing while the type has no member, and never an own
    [__proto__]. *)
Definition bucket {A : Type} (keyType : string) (ms : list Row) (v : A) : option A :=
  if String.eqb keyType "__proto__" then None
  else match ms with
       | [] => None
       | _ :: _ => Some v
       end.

Definition descending (l : list SizedEntry) : Prop :=
  StronglySorted (λ a b, (se_sizeMB b ≤ se_sizeMB a)%N) l.

(** [l'] keeps entries of equal size in the order they have in [l]. *)
Definition keeps_order_of_ties (l' l : list SizedEntry) : Prop :=
  ∀ s, List.filter (λ e, (se_sizeMB e =? s)%N) l'
     = List.filter (λ e, (se_sizeMB e =? s)%N) l.

Definition composer_rows (rows : list Row) : list Row :=
  List.filter (λ r, counted r && is_composer r) rows.

Definition other_rows (rows : list Row) : list Row :=
  List.filter (λ r, counted r && negb (is_composer r)) rows.

(** The loop state after a complete scan of [rows], field by field. *)
Record scanned (total : N) (rows : list Row) (st : ScanState) : Prop := mkScanned {
  sc_total : totalEntries st.1 = total;
  sc_composer : composerEntries st.1 = N.of_nat (length (composer_rows rows));
  sc_other : otherEntries st.1 = N.of_nat (length (other_rows rows));
  sc_size : totalSizeMB st.1 = sum_bytes (List.filter counted rows);
  sc_composer_size : composerDataSizeMB st.1 = sum_bytes (composer_rows rows);
  sc_other_size : otherDataSizeMB st.1 = sum_bytes (other_rows rows);
  sc_byType : ∀ keyType,
    entriesByType st.1 !! keyType
    = bucket keyType (members keyType rows)
        (Num (N.of_nat (length (members keyType rows))));
  sc_sizeByType : ∀ keyType,
    entriesSizeByType st.1 !! keyType
    = bucket keyType (members keyType rows) (Num (sum_bytes (members keyType rows)));
  sc_samples : ∀ keyType,
    sampleKeys st.1 !! keyType
    = bucket keyType (members keyType rows) (take 3 (map key (members keyType rows)));
  sc_largest : largestEntries st.1 = [];
  sc_all : st.2 = map sized (List.filter counted rows)
}.

(** *** The ranking as the specification words it *)

(** The candidates of the specification: the rows with a non-null value
    that are not composer data. *)
Definition spec_candidates (rows : list Row) : list Row :=
  List.filter
    (λ r, match value r with Some _ => negb (is_composer r) | None => false end)
    rows.

Definition spec_largestEntries (rows : list Row) : list LargestEntry :=
  map to_largest (take 10 (sort_desc (map sized (spec_candidates rows)))).

(** *** Health of a database file *)

(** Statements on [table] succeed and so does [close]. *)
Definition serves (db : DbFile) (table : string) : bool :=
  bool_decide (is_Some (db_tables db !! table)) && db_close_ok db.

(** Every database file that opens serves both tables and closes. *)
Definition statements_succeed (w : World) : Prop :=
  ∀ path, db_open_ok (database w path) = true →
    serves (database w path) "ItemTable" = true
    ∧ serves (database w path) "cursorDiskKV" = true.

(** ** A runtime and worlds for the examples *)

Inductive SampleJson := SampleNull | SampleArray | SampleObject.

(** Decodes the documents [null], [[]] and [{}]; the examples hand it no
    other well-formed document. *)
Definition sample_parse (text : string) : option SampleJson :=
  if String.eqb text "null" then Some SampleNull
  else if String.eqb text "[]" then Some SampleArray
  else if String.eqb text "{}" then Some SampleObject
  else None.

Definition sample_member_length (member : string) (data : SampleJson) : option N :=
  match data with
  | SampleNull => None
  | _ => Some 0%N
  end.

Definition sample_folder_of (data : SampleJson) : option (option string) :=
  match data with
  | SampleNull => None
  | _ => Some None
  end.

(** [path.join] up to normalisation: the segments joined by "/", a ".."
    segment left in place; the result designates the same file. *)
Definition sample_join (segments : list string) : string :=
  String.concat "/" segments.

Definition sample_within (p q : string) : bool :=
  String.eqb p q || String.prefix (p +:+ "/") q.

Definition sample_runtime : Runtime.
Proof.
  refine (Build_Runtime sample_join SampleJson sample_parse sample_member_length
            sample_folder_of sample_within _).
  intros p. unfold sample_within. by rewrite String.eqb_refl.
Defined.

Definition chat_key : string := "workbench.panel.aichat.view.aichat.chatdata".

(** One workspace [w1] under [/ws]; every database file opens, closes and
    holds the given tables. *)
Definition sample_world (tables : gmap string (list Row)) : World :=
  mkWorld (Some "/ws") (λ _, true)
    (λ _, Some [mkDirent "w1" true]) (λ _, None)
    (λ _, mkDb true tables true).

Definition malformed_tables : gmap string (list Row) :=
  {[ "ItemTable" := [mkRow chat_key (Some "{oops"); mkRow "composer.composerData" (Some "{oops")];
     "cursorDiskKV" := [mkRow "bubbleId:1" (Some "hello"); mkRow "n" None] ]}.

Definition io0 : Io := mkIo [] [].

(** Rows of the global table: a composer row, rows of type [a], a row
    without value, one with an empty value, a key that starts with a
    colon, and a key of type [__proto__]. *)
Definition sample_rows : list Row :=
  [ mkRow "composerData:1" (Some "xxxx"); mkRow "a:1" (Some "x"); mkRow "n" None;
    mkRow "e" (Some ""); mkRow ":c" (Some "yy"); mkRow "a:2" (Some "yy");
    mkRow "__proto__:1" (Some "q") ].

Fixpoint replicate_char (n : nat) (c : ascii) : string :=
  match n with
  | O => EmptyString
  | S n' => String c (replicate_char n' c)
  end.

(** The table of the specification's worked example: values of 50000,
    200000, 50000 and 1000 bytes. *)
Definition worked_example_rows : list Row :=
  [ mkRow "composerData:1" (Some (replicate_char (N.to_nat 50000) "x"));
    mkRow "foo:1" (Some (replicate_char (N.to_nat 200000) "y"));
    mkRow "foo:2" (Some (replicate_char (N.to_nat 50000) "z"));
    mkRow "bar:1" (Some (replicate_char (N.to_nat 1000) "w")) ].

(** A table whose second key has the coarse type [toString]. *)
Definition tripping_rows : list Row :=
  [ mkRow "a:1" (Some "x"); mkRow "toString:1" (Some "y") ].

Definition sample_disk : FileSystem :=
  mkFs {[ "/ws/a"; "/ws/c" ]} ∅.

(** ** The statistics page (the page component that uses the routes) *)


Definition MB_hundredths (bytes : N) : N := ((200 * bytes + 2 ^ 20) / 2 ^ 21)%N.



Definition fixed2 (hundredths : N) : string :=
  pretty (hundredths / 100)%N +:+ "." +:+ two_digits (hundredths mod 100)%N.


(** The identifiers [handleRemoveEmptyWorkspaces] collects. *)
Definition emptyWorkspaces (workspaceDetails : list WorkspaceStats) : list string :=
  map ws_id
    (List.filter (λ x, negb (hasChats x) && negb (hasComposers x)) workspaceDetails).

(** What [handleRemoveEmptyWorkspaces] decides before it calls [fetch]:
    nothing while the statistics are not loaded, an error message when no
    workspace is empty, nothing when the user declines the confirmation,
    and otherwise the DELETE request with the identifiers collected. *)
Inductive RemovalIntent :=
| NotLoaded
| NothingToRemove (error : string)
| Declined
| Send (request : RemovalRequest).

Definition handleRemoveEmptyWorkspaces
    (statistics : option DatabaseStatistics) (confirmed : bool) : RemovalIntent :=
  match statistics with
  | None => NotLoaded
  | Some stats =>
      let ids := emptyWorkspaces (workspaceDetails stats) in
      if (length ids =? 0)%nat then NothingToRemove "No empty workspaces to remove"
      else if negb confirmed then Declined
      else Send (IdList ids)
  end.

(** The table of workspaces: [workspaceDetails.sort(...)] with the
    comparator [bTotal - aTotal] on [chatCount + composerCount], a stable
    sort that rearranges the array of the statistics in place. *)
Fixpoint insert_by_desc {A : Type} (f : A → N) (x : A) (sorted : list A) : list A :=
  match sorted with
  | [] => [x]
  | y :: rest =>
      if (f x <? f y)%N then y :: insert_by_desc f x rest
      else x :: y :: rest
  end.

Definition sort_by_desc {A : Type} (f : A → N) (l : list A) : list A :=
  foldr (insert_by_desc f) [] l.

Definition total_logs (x : WorkspaceStats) : N := (chatCount x + composerCount x)%N.

Definition sort_workspaces (workspaceDetails : list WorkspaceStats) : list WorkspaceStats :=
  sort_by_desc total_logs workspaceDetails.

(** ** Further vocabulary *)

(** The state a block ends in, however it ends. *)
Definition outcome_state {A : Type} (o : Outcome A) : A :=
  match o with
  | Normal a => a
  | Thrown a => a
  end.

(** The statistics with [totalEntries] replaced. *)
Definition with_totalEntries (total : N) (stats : GlobalDatabaseStats) : GlobalDatabaseStats :=
  mkStats total (composerEntries stats) (otherEntries stats) (totalSizeMB stats)
    (composerDataSizeMB stats) (otherDataSizeMB stats) (entriesByType stats)
    (entriesSizeByType stats) (largestEntries stats) (sampleKeys stats).

(** What every record of the scanner satisfies. *)
Definition record_sound (x : WorkspaceStats) : Prop :=
  ws_totalSizeMB x = (chatDataSizeMB x + ws_composerDataSizeMB x)%N
  ∧ (hasChats x = false → chatCount x = 0%N ∧ chatDataSizeMB x = 0%N)
  ∧ (hasComposers x = false → composerCount x = 0%N ∧ ws_composerDataSizeMB x = 0%N).

(** The key has no colon. *)
Fixpoint colon_free (s : string) : bool :=
  match s with
  | EmptyString => true
  | String c rest => negb (Ascii.eqb c ":"%char) && colon_free rest
  end.

(** Tables whose chat value is the well-formed document [[]]. *)
Definition wellformed_tables : gmap string (list Row) :=
  {[ "ItemTable" := [mkRow chat_key (Some "[]")];
     "cursorDiskKV" := [mkRow "bubbleId:1" (Some "{}")] ]}.

Definition sample_details : list WorkspaceStats :=
  [ mkWorkspaceStats "w1" true false 3 0 None 10 0 10;
    mkWorkspaceStats "w2" false false 0 0 None 0 0 0;
    mkWorkspaceStats "w3" true true 1 4 None 5 7 12;
    mkWorkspaceStats "w4" false false 0 0 None 0 0 0 ].

(** Twelve rows of the global table, of 1 to 12 bytes. *)
Definition twelve_rows : list Row :=
  map (λ n, mkRow ("k" +:+ pretty n +:+ ":x") (Some (replicate_char n "x"))) (seq 1 12).

(** A disk with the directories of [w1], [w2] and [w4] of [sample_details]. *)
Definition page_disk : FileSystem :=
  mkFs {[ "/ws/w1"; "/ws/w1/state.vscdb"; "/ws/w2"; "/ws/w2/state.vscdb"; "/ws/w4" ]} ∅.

(** * Properties *)

(** ** Key classifier *)

(** The two exact keys start with none of the five prefixes. *)
Lemma exact_keys_have_no_rule_prefix :
  formatDataType "workbench.panel.aichat.view.aichat.chatdata" = ChatData
  ∧ formatDataType "composer.composerData" = ComposerMetadata.
Proof. split; reflexivity. Qed.

(** C4: for every key the classifier of the entry page returns the category
    that the eight rules of the specification give when they are tried in
    the specification's order, exact matches first, first match winning. *)
Theorem formatDataType_is_first_match (k : string) :
  formatDataType k = spec_classify k.
Proof.
  unfold formatDataType, spec_classify, spec_rules, first_match, rule_applies.
  destruct (String.eqb_spec k "workbench.panel.aichat.view.aichat.chatdata") as [-> | _];
    [reflexivity |].
  destruct (String.eqb_spec k "composer.composerData") as [-> | _];
    [reflexivity |].
  repeat match goal with
         | |- context [Js.startsWith k ?p] => destruct (Js.startsWith k p)
         end; reflexivity.
Qed.

Example classify_examples :
  category_label (formatDataType "bubbleId:abc") = "Chat Message"
  ∧ category_label (formatDataType "composerData:xyz") = "Composer Data"
  ∧ category_label (formatDataType "unrelated") = "Unknown".
Proof. repeat split. Qed.

(** ** The ranking sort *)

Section Ranking.

Implicit Types (e : SizedEntry) (l : list SizedEntry).

Lemma insert_desc_Permutation e l : Permutation (insert_desc e l) (e :: l).
Proof.
  induction l as [| x rest IH]; simpl; [done |].
  destruct (se_sizeMB e <? se_sizeMB x)%N; [| done].
  rewrite IH. apply perm_swap.
Qed.

Lemma sort_desc_Permutation l : Permutation (sort_desc l) l.
Proof.
  induction l as [| e rest IH]; simpl; [done |].
  rewrite insert_desc_Permutation. by constructor.
Qed.

Lemma sort_desc_length l : length (sort_desc l) = length l.
Proof. apply Permutation_length, sort_desc_Permutation. Qed.

Lemma insert_desc_descending e l : descending l → descending (insert_desc e l).
Proof.
  unfold descending. induction l as [| x rest IH]; simpl; intros Hl.
  - repeat constructor.
  - apply StronglySorted_inv in Hl as [Hrest Hx].
    destruct (se_sizeMB e <? se_sizeMB x)%N eqn:Hlt.
    + apply N.ltb_lt in Hlt. constructor; [by apply IH |].
      eapply Permutation_Forall; [symmetry; apply insert_desc_Permutation |].
      constructor; [lia | done].
    + apply N.ltb_ge in Hlt. constructor; [by constructor |].
      constructor; [done |].
      eapply Forall_impl; [exact Hx |]. simpl. intros y Hy. lia.
Qed.

Lemma sort_desc_descending l : descending (sort_desc l).
Proof.
  induction l as [| e rest IH]; simpl; [constructor |].
  by apply insert_desc_descending.
Qed.

Lemma insert_desc_keeps_ties e l s :
  List.filter (λ x, (se_sizeMB x =? s)%N) (insert_desc e l)
  = List.filter (λ x, (se_sizeMB x =? s)%N) (e :: l).
Proof.
  induction l as [| x rest IH]; [done |].
  cbn [insert_desc].
  destruct (se_sizeMB e <? se_sizeMB x)%N eqn:Hlt; [| done].
  apply N.ltb_lt in Hlt.
  cbn [List.filter] in *. rewrite IH.
  destruct (se_sizeMB e =? s)%N eqn:He, (se_sizeMB x =? s)%N eqn:Hx; try done.
  apply N.eqb_eq in He, Hx. lia.
Qed.

Lemma sort_desc_keeps_ties l : keeps_order_of_ties (sort_desc l) l.
Proof.
  intros s. induction l as [| e rest IH]; [done |].
  cbn [sort_desc foldr]. rewrite insert_desc_keeps_ties.
  cbn [List.filter]. fold (sort_desc rest). by rewrite IH.
Qed.

(** Two descending lists with the same entries of each size, in the same
    order, are equal: being descending and keeping ties in order
    determines the result of the sort, whatever the algorithm. *)
Lemma descending_ties_unique l1 l2 :
  descending l1 → descending l2 → keeps_order_of_ties l1 l2 → l1 = l2.
Proof.
  unfold descending, keeps_order_of_ties.
  revert l2. induction l1 as [| x r1 IH]; intros [| y r2] H1 H2 Heq.
  - done.
  - specialize (Heq (se_sizeMB y)). cbn [List.filter] in Heq.
    by rewrite N.eqb_refl in Heq.
  - specialize (Heq (se_sizeMB x)). cbn [List.filter] in Heq.
    by rewrite N.eqb_refl in Heq.
  - apply StronglySorted_inv in H1 as [H1 Hx], H2 as [H2 Hy].
    assert (se_sizeMB x = se_sizeMB y) as Hxy.
    { destruct (N.eq_dec (se_sizeMB x) (se_sizeMB y)) as [| Hne]; [done |].
      pose proof (Heq (se_sizeMB x)) as Ex. pose proof (Heq (se_sizeMB y)) as Ey.
      cbn [List.filter] in Ex, Ey. rewrite !N.eqb_refl in Ex, Ey.
      rewrite (proj2 (N.eqb_neq _ _)) in Ex by lia.
      rewrite (proj2 (N.eqb_neq _ _)) in Ey by lia.
      assert (In x r2) as Hin2.
      { eapply (proj1 (filter_In _ x r2)). rewrite <- Ex. by left. }
      assert (In y r1) as Hin1.
      { eapply (proj1 (filter_In _ y r1)). rewrite Ey. by left. }
      rewrite List.Forall_forall in Hx, Hy.
      specialize (Hx _ Hin1). specialize (Hy _ Hin2). simpl in *. lia. }
    assert (x = y) as ->.
    { specialize (Heq (se_sizeMB x)). cbn [List.filter] in Heq.
      rewrite N.eqb_refl in Heq. rewrite <- Hxy, N.eqb_refl in Heq.
      by injection Heq. }
    f_equal. apply IH; [done | done |].
    intros s. specialize (Heq s). cbn [List.filter] in Heq.
    destruct (se_sizeMB y =? s)%N; [by injection Heq | done].
Qed.

End Ranking.

(** ** The scan of the global table *)

Section Scan.

Implicit Types (r : Row) (rows : list Row) (st : ScanState).

Lemma filter_snoc {A : Type} (f : A → bool) (l : list A) (x : A) :
  List.filter f (l ++ [x])%list = (List.filter f l ++ if f x then [x] else [])%list.
Proof. by rewrite List.filter_app. Qed.

Lemma sum_bytes_app rows rows' :
  sum_bytes (rows ++ rows')%list = (sum_bytes rows + sum_bytes rows')%N.
Proof.
  induction rows as [| r rest IH]; simpl; [done |]. rewrite IH. lia.
Qed.

Lemma sum_bytes_snoc rows r :
  sum_bytes (rows ++ [r])%list = (sum_bytes rows + bytes_of r)%N.
Proof. rewrite sum_bytes_app. simpl. lia. Qed.

Lemma length_snoc_N {A : Type} (l : list A) (x : A) :
  N.of_nat (length (l ++ [x])%list) = (N.of_nat (length l) + 1)%N.
Proof. rewrite length_app. simpl. lia. Qed.

Lemma take3_snoc {A : Type} (l : list A) (x : A) :
  take 3 (l ++ [x])%list
  = if (length (take 3 l) <? 3)%nat then (take 3 l ++ [x])%list else take 3 l.
Proof.
  destruct l as [| a [| b [| c rest]]]; try reflexivity.
Qed.

Lemma scan_snoc rows r st :
  scan (rows ++ [r])%list st
  = match scan rows st with
    | Normal st' => visit st' r
    | Thrown st' => Thrown st'
    end.
Proof.
  revert st. induction rows as [| r' rest IH]; intros st; simpl.
  - by destruct (visit st r).
  - destruct (visit st r'); [apply IH | done].
Qed.

Lemma members_snoc keyType rows r :
  members keyType (rows ++ [r])%list
  = (members keyType rows ++
     if counted r && negb (is_composer r) && String.eqb (coarse_type (key r)) keyType
     then [r] else [])%list.
Proof. unfold members. by rewrite filter_snoc. Qed.

Lemma bucket_nil {A : Type} keyType (v : A) : bucket keyType [] v = None.
Proof. unfold bucket. by destruct (String.eqb keyType "__proto__"). Qed.

Lemma bucket_snoc {A : Type} keyType rows r (v : A) :
  keyType ≠ "__proto__" → bucket keyType (rows ++ [r])%list v = Some v.
Proof.
  intros Hne. unfold bucket.
  destruct (String.eqb_spec keyType "__proto__"); [done |].
  by destruct rows.
Qed.

Lemma counted_value r :
  counted r = true → ∃ v, value r = Some v ∧ Js.truthy (Some v) = true.
Proof.
  unfold counted. destruct (value r) as [v |]; [eauto | done].
Qed.

Lemma js_get_proto {V : Type} (o : gmap string V) : js_get o "__proto__" = InheritedProto.
Proof. reflexivity. Qed.

Lemma js_get_plain {V : Type} (o : gmap string V) k :
  k ≠ "__proto__" → names_prototype_function k = false →
  js_get o k = match o !! k with Some v => Own v | None => Undefined end.
Proof.
  intros Hne Hfn. unfold js_get, names_prototype_function in *.
  destruct (String.eqb_spec k "__proto__"); [done |].
  destruct (o !! k); [done |].
  by destruct (assoc k Object_prototype_functions).
Qed.

Lemma js_set_plain {V : Type} (o : gmap string V) k v :
  k ≠ "__proto__" → js_set o k v = <[k := v]> o.
Proof.
  intros Hne. unfold js_set. by destruct (String.eqb_spec k "__proto__").
Qed.

Lemma scanned_skip total rows st r :
  counted r = false → scanned total rows st → scanned total (rows ++ [r])%list st.
Proof.
  intros Hc [].
  constructor; try done; intros;
    rewrite ?members_snoc; unfold composer_rows, other_rows;
    rewrite ?filter_snoc, ?Hc; simpl; by rewrite ?app_nil_r.
Qed.

Lemma visit_skip st r : counted r = false → visit st r = Normal st.
Proof.
  unfold counted, visit. destruct st as [stats all].
  destruct (value r) as [v |]; [| done]. by intros ->.
Qed.

Ltac scanned_fields Hc Hcomposer Hb Hsized :=
  unfold composer_rows, other_rows, is_composer in *;
  constructor; simpl; try done; intros;
  rewrite ?members_snoc; unfold composer_rows, other_rows, is_composer;
  rewrite ?filter_snoc, ?Hc, ?Hcomposer; simpl;
  rewrite ?app_nil_r, ?length_snoc_N, ?sum_bytes_snoc, ?map_app, ?Hb; simpl;
  rewrite ?Hsized; try congruence.

Lemma visit_scanned total rows st r :
  scanned total rows st → trips r = false →
  ∃ st', visit st r = Normal st' ∧ scanned total (rows ++ [r])%list st'.
Proof.
  intros Hst Htrip.
  destruct (counted r) eqn:Hc; cycle 1.
  { exists st. split; [by apply visit_skip | by apply scanned_skip]. }
  destruct (counted_value r Hc) as (v & Hv & Ht).
  destruct st as [stats all]. destruct Hst as [Htot Hcomp Hoth Hsz Hcsz Hosz Hby Hsby Hsam Hlg Hall].
  simpl in *.
  unfold visit. rewrite Hv, Ht. cbn [negb].
  assert (bytes_of r = calculateDataSizeMB (Some v)) as Hb by (unfold bytes_of; by rewrite Hv).
  assert (sized r = mkSized (key r) (calculateDataSizeMB (Some v)) v) as Hsized
    by (unfold sized; by rewrite Hb, Hv).
  destruct (Js.startsWith (key r) "composerData:") eqn:Hcomposer.
  - eexists. split; [reflexivity |].
    scanned_fields Hc Hcomposer Hb Hsized.
  - assert (names_prototype_function (coarse_type (key r)) = false) as Hfn.
    { unfold trips, is_composer in Htrip. by rewrite Hc, Hcomposer in Htrip. }
    destruct (String.eqb_spec (coarse_type (key r)) "__proto__") as [Hp | Hp].
    + rewrite Hp, !js_get_proto. unfold js_set. simpl.
      eexists. split; [reflexivity |].
      scanned_fields Hc Hcomposer Hb Hsized.
      all: rewrite Hp; destruct (String.eqb_spec "__proto__" keyType) as [<- | Hne];
        [ rewrite ?Hby, ?Hsby, ?Hsam; reflexivity
        | by rewrite ?app_nil_r ].
    + rewrite !js_get_plain by done. rewrite !js_set_plain by done.
      set (kt0 := coarse_type (key r)) in *.
      assert (∀ keyType, kt0 ≠ keyType →
                members keyType (rows ++ [r])%list = members keyType rows) as Hother.
      { intros keyType Hne. rewrite members_snoc. fold kt0.
        rewrite (proj2 (String.eqb_neq _ _) Hne), andb_false_r. apply app_nil_r. }
      assert (members kt0 (rows ++ [r])%list = (members kt0 rows ++ [r])%list) as Hmine.
      { rewrite members_snoc. fold kt0. unfold is_composer.
        by rewrite Hc, Hcomposer, String.eqb_refl. }
      pose proof (Hby kt0) as Hby0. pose proof (Hsby kt0) as Hsby0.
      pose proof (Hsam kt0) as Hsam0.
      rewrite Hby0, Hsby0, Hsam0.
      unfold bucket in Hby0, Hsby0, Hsam0 |- *.
      rewrite (proj2 (String.eqb_neq _ _) Hp) in Hby0, Hsby0, Hsam0 |- *.
      destruct (members kt0 rows) as [| m ms] eqn:Hms.
      * rewrite lookup_insert_eq. cbn [length Nat.ltb Nat.leb].
        eexists. split; [reflexivity |].
        scanned_fields Hc Hcomposer Hb Hsized.
        all: destruct (decide (kt0 = keyType)) as [<- | Hne];
          [ rewrite ?lookup_insert_eq; fold kt0; rewrite String.eqb_refl, Hms; simpl;
            unfold bucket; rewrite (proj2 (String.eqb_neq _ _) Hp); simpl;
            try done; do 2 f_equal; lia
          | rewrite ?lookup_insert_ne by done; fold kt0;
            rewrite (proj2 (String.eqb_neq _ _) Hne), ?app_nil_r; done ].
      * rewrite Hsam0.
        set (l := take 3 (map key (m :: ms))) in *.
        assert (∃ samples',
          (if (length l <? 3)%nat
           then <[kt0 := (l ++ [key r])%list]> (sampleKeys stats)
           else sampleKeys stats) = samples'
          ∧ ∀ keyType, samples' !! keyType
              = bucket keyType (members keyType (rows ++ [r])%list)
                  (take 3 (map key (members keyType (rows ++ [r])%list))))
          as (samples' & Hs' & Hsam').
        { eexists. split; [reflexivity |]. intros keyType.
          destruct (decide (kt0 = keyType)) as [<- | Hne].
          - rewrite Hmine, bucket_snoc, map_app by done.
            change (map key [r]) with [key r]. rewrite take3_snoc.
            fold l. destruct (length l <? 3)%nat.
            + by rewrite lookup_insert_eq.
            + done.
          - rewrite Hother by done.
            destruct (length l <? 3)%nat; [rewrite lookup_insert_ne by done |]; apply Hsam. }
        destruct (length l <? 3)%nat; rewrite Hs'; clear Hs'.
        all: eexists; (split; [reflexivity |]).
        all: scanned_fields Hc Hcomposer Hb Hsized.
        all: destruct (decide (kt0 = keyType)) as [<- | Hne];
          [ rewrite lookup_insert_eq; fold kt0; rewrite String.eqb_refl, Hms;
            rewrite bucket_snoc by done;
            rewrite ?length_snoc_N, ?sum_bytes_snoc, ?Hb; simpl; do 2 f_equal; lia
          | rewrite lookup_insert_ne by done; fold kt0;
            rewrite (proj2 (String.eqb_neq _ _) Hne), ?app_nil_r; done ].
Qed.
Lemma scan_scanned total rows :
  scannable rows = true →
  ∃ st, scan rows (mkStats total 0 0 0 0 0 ∅ ∅ [] ∅, []) = Normal st
        ∧ scanned total rows st.
Proof.
  induction rows as [| r rows IH] using rev_ind; intros Hok.
  - eexists. split; [reflexivity |].
    constructor; try done; intros; simpl; by rewrite lookup_empty, bucket_nil.
  - unfold scannable in *. rewrite forallb_app in Hok. simpl in Hok.
    apply andb_prop in Hok as [Hrows Hr]. rewrite andb_true_r in Hr.
    apply negb_true_iff in Hr.
    destruct (IH Hrows) as (st & Hscan & Hst).
    rewrite scan_snoc, Hscan. by apply visit_scanned.
Qed.

End Scan.

(** ** Tables on which the loop throws *)

Section Trips.
Implicit Types (r : Row) (rows : list Row) (st : ScanState).

Lemma scan_app rows rows' st :
  scan (rows ++ rows')%list st
  = match scan rows st with
    | Normal st' => scan rows' st'
    | Thrown st' => Thrown st'
    end.
Proof.
  revert st. induction rows as [| r rest IH]; intros st; simpl; [done |].
  destruct (visit st r); [apply IH | done].
Qed.

(** Every function of [Object.prototype] takes fewer than three arguments,
    and none is called [__proto__]. *)
Lemma prototype_function_arity keyType arity :
  assoc keyType Object_prototype_functions = Some arity →
  (arity <? 3)%nat = true ∧ keyType ≠ "__proto__".
Proof.
  intros Hfn. split.
  - unfold Object_prototype_functions in Hfn. cbn [assoc] in Hfn.
    repeat match type of Hfn with
           | (if ?b then _ else _) = _ => destruct b; [by injection Hfn as <- |]
           end.
    done.
  - intros ->. done.
Qed.

Lemma no_members_of_a_function_type rows keyType :
  scannable rows = true → names_prototype_function keyType = true →
  members keyType rows = [].
Proof.
  intros Hok Hfn. unfold scannable, members in *.
  induction rows as [| r rest IH]; [done |]. cbn [forallb List.filter] in *.
  apply andb_prop in Hok as [Hr Hrest]. rewrite (IH Hrest).
  destruct (String.eqb_spec (coarse_type (key r)) keyType) as [Heq | _];
    [| by rewrite andb_false_r].
  unfold trips in Hr. rewrite Heq, Hfn, andb_true_r in Hr.
  apply negb_true_iff in Hr. by rewrite Hr.
Qed.

Lemma visit_trips total rows st r :
  scanned total rows st → scannable rows = true → trips r = true →
  ∃ st', visit st r = Thrown st'.
Proof.
  intros Hst Hok Htrip. unfold trips in Htrip.
  apply andb_prop in Htrip as [[Hc Hcomposer]%andb_prop Hfn].
  apply negb_true_iff in Hcomposer. unfold is_composer in Hcomposer.
  destruct (counted_value r Hc) as (v & Hv & Ht).
  destruct st as [stats all]. unfold visit. rewrite Hv, Ht, Hcomposer. cbn [negb].
  pose proof (sc_samples _ _ _ Hst (coarse_type (key r))) as Hsam. simpl in Hsam.
  rewrite (no_members_of_a_function_type rows _ Hok Hfn), bucket_nil in Hsam.
  unfold names_prototype_function in Hfn.
  destruct (assoc (coarse_type (key r)) Object_prototype_functions) as [arity |] eqn:Harity;
    [| done].
  destruct (prototype_function_arity _ _ Harity) as [Hlt Hne].
  assert (js_get (sampleKeys stats) (coarse_type (key r))
          = Inherited (coarse_type (key r)) arity) as Hget.
  { unfold js_get. rewrite (proj2 (String.eqb_neq _ _) Hne), Hsam, Harity. done. }
  rewrite Hget, Hget, Hlt. eauto.
Qed.

Lemma first_trip rows :
  scannable rows = false →
  ∃ before r after,
    rows = (before ++ r :: after)%list ∧ scannable before = true ∧ trips r = true.
Proof.
  unfold scannable. induction rows as [| r rest IH]; [done |]. cbn [forallb].
  destruct (trips r) eqn:Hr; cbn [negb andb].
  - intros _. by exists [], r, rest.
  - intros (before & r' & after & -> & Hbefore & Hr')%IH.
    exists (r :: before), r', after. cbn [forallb]. by rewrite Hr, Hbefore.
Qed.

(** The loop runs to its end exactly on the tables without a row whose
    coarse type names a function of [Object.prototype]. *)
Lemma scan_completes_iff total rows :
  (∃ st, scan rows (mkStats total 0 0 0 0 0 ∅ ∅ [] ∅, []) = Normal st)
  ↔ scannable rows = true.
Proof.
  split.
  - intros [st Hscan]. destruct (scannable rows) eqn:Hok; [done |].
    destruct (first_trip rows Hok) as (before & r & after & -> & Hbefore & Hr).
    destruct (scan_scanned total before Hbefore) as (st1 & Hscan1 & Hst1).
    destruct (visit_trips total before st1 r Hst1 Hbefore Hr) as (st2 & Hvisit).
    rewrite scan_app, Hscan1 in Hscan. cbn [scan] in Hscan. by rewrite Hvisit in Hscan.
  - intros Hok. destruct (scan_scanned total rows Hok) as (st & Hscan & _). eauto.
Qed.

(** On the other tables the function returns what the loop left behind:
    no entry is ranked. *)
Lemma largestEntries_after_a_throw rows :
  scannable rows = false → largestEntries (analyze_entries rows) = [].
Proof.
  intros Hok.
  destruct (first_trip rows Hok) as (before & r & after & -> & Hbefore & Hr).
  destruct (scan_scanned (N.of_nat (length (before ++ r :: after)%list)) before Hbefore)
    as (st1 & Hscan1 & Hst1).
  destruct (visit_trips _ before st1 r Hst1 Hbefore Hr) as ([stats2 all2] & Hvisit).
  unfold analyze_entries. rewrite scan_app, Hscan1. cbn [scan]. rewrite Hvisit.
  revert Hvisit. destruct st1 as [stats1 all1]. unfold visit.
  pose proof (sc_largest _ _ _ Hst1) as Hnil. simpl in Hnil.
  repeat match goal with
         | |- context [match ?x with _ => _ end] => destruct x eqn:?
         end; intros [= <- <-] || intros [=]; done.
Qed.
End Trips.

(** ** The analysis of the global table *)

Section Analyzer.
Implicit Types (r : Row) (rows : list Row).

(** The result of the analysis when no row makes the loop throw. *)
Lemma analyze_entries_scannable rows :
  scannable rows = true →
  ∃ st, scanned (N.of_nat (length rows)) rows st
    ∧ analyze_entries rows
      = mkStats (totalEntries st.1) (composerEntries st.1) (otherEntries st.1)
          (totalSizeMB st.1) (composerDataSizeMB st.1) (otherDataSizeMB st.1)
          (filteredEntriesByType st.1) (filteredEntriesSizeByType st.1)
          (map to_largest (take 10 (sort_desc st.2)))
          (filteredSampleKeys st.1).
Proof.
  intros Hok.
  destruct (scan_scanned (N.of_nat (length rows)) rows Hok) as ([stats all] & Hscan & Hst).
  exists (stats, all). split; [done |].
  unfold analyze_entries. by rewrite Hscan.
Qed.

Lemma filter_counted_split rows :
  length (List.filter counted rows)
  = (length (other_rows rows) + length (composer_rows rows))%nat.
Proof.
  unfold other_rows, composer_rows.
  induction rows as [| r rest IH]; simpl; [done |].
  destruct (counted r), (is_composer r); simpl; lia.
Qed.

Lemma sum_bytes_split rows :
  sum_bytes (List.filter counted rows)
  = (sum_bytes (other_rows rows) + sum_bytes (composer_rows rows))%N.
Proof.
  unfold other_rows, composer_rows.
  induction rows as [| r rest IH]; simpl; [done |].
  destruct (counted r), (is_composer r); simpl; lia.
Qed.

Lemma filter_all_length {A : Type} (f : A → bool) (l : list A) :
  length (List.filter f l) = length l ↔ forallb f l = true.
Proof.
  induction l as [| x rest IH]; simpl; [done |].
  pose proof (List.filter_length_le f rest).
  destruct (f x); simpl; [rewrite <- IH; lia |].
  split; [lia | done].
Qed.

(** C2 (amended): when no row makes the loop throw, [totalEntries] is the
    number of rows read, [otherEntries + composerEntries] is the number of
    rows whose value is neither null nor empty, the size sums range over
    those rows only, and the two counts agree exactly when every row read
    has such a value. *)
Theorem counts_cover_the_counted_rows rows :
  scannable rows = true →
  let stats := analyze_entries rows in
  totalEntries stats = N.of_nat (length rows)
  ∧ composerEntries stats = N.of_nat (length (composer_rows rows))
  ∧ otherEntries stats = N.of_nat (length (other_rows rows))
  ∧ (otherEntries stats + composerEntries stats)%N
    = N.of_nat (length (List.filter counted rows))
  ∧ totalSizeMB stats = sum_bytes (List.filter counted rows)
  ∧ (otherDataSizeMB stats + composerDataSizeMB stats)%N = totalSizeMB stats
  ∧ ((otherEntries stats + composerEntries stats)%N = totalEntries stats
     ↔ forallb counted rows = true).
Proof.
  intros Hok stats.
  destruct (analyze_entries_scannable rows Hok)
    as (st & [Htot Hcomp Hoth Hsz Hcsz Hosz _ _ _ _ _] & Heq).
  subst stats. rewrite Heq. simpl.
  pose proof (filter_counted_split rows) as Hsplit.
  pose proof (sum_bytes_split rows) as Hsum.
  pose proof (filter_all_length counted rows) as [Hall1 Hall2].
  repeat split; try lia; try congruence.
  - intros ?. apply Hall1. lia.
  - intros Hall. apply Hall2 in Hall. lia.
Qed.

(** C1 (amended): when no row makes the loop throw, [largestEntries] is
    the first ten of ALL rows whose value is neither null nor empty,
    composer rows included, arranged by descending size with rows of equal
    size in scan order; each entry carries the coarse type of its key. *)
Theorem largestEntries_rank_every_counted_row rows :
  scannable rows = true →
  let candidates := map sized (List.filter counted rows) in
  let ranked := sort_desc candidates in
  largestEntries (analyze_entries rows) = map to_largest (take 10 ranked)
  ∧ Permutation ranked candidates
  ∧ descending ranked
  ∧ keeps_order_of_ties ranked candidates
  ∧ (length (largestEntries (analyze_entries rows)) ≤ 10)%nat
  ∧ Forall (λ e, le_type e = coarse_type (le_key e)) (largestEntries (analyze_entries rows)).
Proof.
  intros Hok candidates ranked.
  destruct (analyze_entries_scannable rows Hok) as (st & Hst & Heq).
  rewrite Heq. simpl. rewrite (sc_all _ _ _ Hst). fold candidates. fold ranked.
  split_and!.
  - done.
  - apply sort_desc_Permutation.
  - apply sort_desc_descending.
  - apply sort_desc_keeps_ties.
  - rewrite length_map, length_take. lia.
  - apply Forall_forall. intros e He. apply list_elem_of_fmap in He as (x & -> & _). done.
Qed.

(** The comparison with the double nearest to 0.1 agrees on byte counts
    with the comparison with 0.1 itself: at least 104858 bytes. *)
Lemma at_least_MIN_SIZE_MB_Num (b : N) :
  at_least_MIN_SIZE_MB (Num b) = true ↔ (2 ^ 20 ≤ 10 * b)%N.
Proof.
  unfold at_least_MIN_SIZE_MB. rewrite N.leb_le.
  change (2 ^ 35)%N with 34359738368%N. change (2 ^ 20)%N with 1048576%N. lia.
Qed.

Lemma js_get_own {V : Type} (o : gmap string V) k v :
  k ≠ "__proto__" → o !! k = Some v → js_get o k = Own v.
Proof.
  intros Hne Hk. unfold js_get.
  destruct (String.eqb_spec k "__proto__"); [done |]. by rewrite Hk.
Qed.

(** The buckets of a scan that completes: a type is retained in the three
    dictionaries together, exactly when it has members and their sizes
    add up to the threshold. *)
Lemma buckets_of_a_complete_scan rows keyType :
  scannable rows = true →
  let stats := analyze_entries rows in
  let ms := members keyType rows in
  if negb (String.eqb keyType "__proto__") && negb (bool_decide (ms = []))
     && at_least_MIN_SIZE_MB (Num (sum_bytes ms))
  then entriesByType stats !! keyType = Some (Num (N.of_nat (length ms)))
       ∧ entriesSizeByType stats !! keyType = Some (Num (sum_bytes ms))
       ∧ sampleKeys stats !! keyType = Some (take 3 (map key ms))
  else entriesByType stats !! keyType = None
       ∧ entriesSizeByType stats !! keyType = None
       ∧ sampleKeys stats !! keyType = None.
Proof.
  intros Hok stats ms.
  destruct (analyze_entries_scannable rows Hok) as ([st all] & Hst & Heq).
  subst stats. rewrite Heq. clear Heq. simpl.
  unfold filteredEntriesByType, filteredEntriesSizeByType, filteredSampleKeys.
  rewrite !map_lookup_imap.
  pose proof (sc_byType _ _ _ Hst keyType) as Hby.
  pose proof (sc_sizeByType _ _ _ Hst keyType) as Hsby.
  pose proof (sc_samples _ _ _ Hst keyType) as Hsam.
  simpl in Hby, Hsby, Hsam. fold ms in Hby, Hsby, Hsam. rewrite Hby.
  assert (∀ (A : Type) (v : A),
            bucket keyType ms v
            = if negb (String.eqb keyType "__proto__") && negb (bool_decide (ms = []))
              then Some v else None) as Hbucket.
  { intros A v. unfold bucket. destruct (String.eqb keyType "__proto__"); [done |].
    by destruct ms. }
  rewrite Hbucket in Hsby, Hsam |- *.
  destruct (negb (String.eqb keyType "__proto__") && negb (bool_decide (ms = [])))
    eqn:Hkept; [| done].
  apply andb_prop in Hkept as [Hp _]. apply negb_true_iff, String.eqb_neq in Hp.
  cbn [andb mbind option_bind].
  unfold retained_size, samples_or_empty.
  rewrite (js_get_own _ _ _ Hp Hsby), (js_get_own _ _ _ Hp Hsam).
  change (3602879701896397 <=? sum_bytes ms * 2 ^ 35)%N
    with (at_least_MIN_SIZE_MB (Num (sum_bytes ms))).
  by destruct (at_least_MIN_SIZE_MB _).
Qed.
End Analyzer.

(** The worked example of the specification: one composer row, three
    others, [bar] dropped with its 1000 bytes and [foo] retained with two
    rows and 250000 bytes; the composer row is ranked second. *)
Example worked_example :
  let stats := analyze_entries worked_example_rows in
  composerEntries stats = 1%N ∧ otherEntries stats = 3%N
  ∧ map_to_list (entriesByType stats) = [("foo", Num 2)]
  ∧ map_to_list (entriesSizeByType stats) = [("foo", Num 250000)]
  ∧ map_to_list (sampleKeys stats) = [("foo", ["foo:1"; "foo:2"])]
  ∧ map le_key (largestEntries stats) = ["foo:1"; "composerData:1"; "foo:2"; "bar:1"].
Proof. vm_compute. repeat split. Qed.

(** The ranking that the analyzer computes and the ranking of the
    specification differ on a table that holds one composer row. *)
Lemma composer_row_is_ranked :
  largestEntries (analyze_entries [mkRow "composerData:1" (Some "x")])
  ≠ spec_largestEntries [mkRow "composerData:1" (Some "x")].
Proof. vm_compute. discriminate. Qed.

Lemma largestEntries_rank_witness :
  scannable sample_rows = true
  ∧ map le_key (largestEntries (analyze_entries sample_rows))
    = ["composerData:1"; ":c"; "a:2"; "a:1"; "__proto__:1"].
Proof.
  split; [reflexivity |].
  destruct (largestEntries_rank_every_counted_row sample_rows eq_refl) as (-> & _).
  reflexivity.
Defined.

(** A row without value is counted in [totalEntries] and in neither of
    [otherEntries] and [composerEntries]. *)
Lemma null_row_breaks_the_sum :
  let stats := analyze_entries [mkRow "k" None] in
  (otherEntries stats + composerEntries stats)%N ≠ totalEntries stats.
Proof. vm_compute. discriminate. Qed.

Lemma counts_witness :
  scannable sample_rows = true
  ∧ totalEntries (analyze_entries sample_rows) = 7%N
  ∧ (otherEntries (analyze_entries sample_rows)
     + composerEntries (analyze_entries sample_rows))%N = 5%N.
Proof.
  split; [reflexivity |].
  destruct (counts_cover_the_counted_rows sample_rows eq_refl)
    as (Htotal & _ & _ & Hsum & _).
  split; [exact Htotal | exact Hsum].
Defined.

(** C3 (the code at the failing input): on a table whose second key has
    the coarse type [toString] the loop throws; the dictionaries are
    returned as they stand, so the type [a] is retained with one byte, far
    below the threshold, and [toString] is a key of the two by-type
    dictionaries and not of the samples. *)
Theorem throw_leaves_buckets_unfiltered :
  let stats := analyze_entries tripping_rows in
  entriesByType stats !! "a" = Some (Num 1)
  ∧ entriesSizeByType stats !! "a" = Some (Num 1)
  ∧ at_least_MIN_SIZE_MB (Num 1) = false
  ∧ sampleKeys stats !! "a" = Some ["a:1"]
  ∧ entriesByType stats !! "toString" = Some (Text (SourceOf "toString") [1%N])
  ∧ sampleKeys stats !! "toString" = None
  ∧ largestEntries stats = [].
Proof. vm_compute. repeat split. Qed.

(** ** The request handlers *)

Section Requests.
Context `{Runtime} (w : World).

Implicit Types (io : Io) (db table : string).

Lemma sqlite_open_ok db io :
  db_open_ok (database w db) = true →
  sqlite_open w db io
  = (Ok db, mkIo (db :: open_handles io) (events io ++ [Opened db])%list).
Proof. unfold sqlite_open. by intros ->. Qed.

Lemma sqlite_open_fails db io :
  db_open_ok (database w db) = false → sqlite_open w db io = (Exn SqliteError, io).
Proof. unfold sqlite_open. by intros ->. Qed.

Lemma db_all_ok db table rows io :
  db_tables (database w db) !! table = Some rows →
  db_all w db table io = (Ok rows, record_event (QueriedAll db table) io).
Proof. unfold db_all, select_from. by intros ->. Qed.

Lemma db_all_fails db table io :
  db_tables (database w db) !! table = None →
  db_all w db table io = (Exn SqliteError, record_event (QueriedAll db table) io).
Proof. unfold db_all, select_from. by intros ->. Qed.

Lemma db_get_ok db table k rows io :
  db_tables (database w db) !! table = Some rows →
  db_get w db table k io
  = (Ok (List.find (λ r, String.eqb (key r) k) rows),
     record_event (QueriedOne db table k) io).
Proof. unfold db_get, select_from. by intros ->. Qed.

Lemma db_get_fails db table k io :
  db_tables (database w db) !! table = None →
  db_get w db table k io = (Exn SqliteError, record_event (QueriedOne db table k) io).
Proof. unfold db_get, select_from. by intros ->. Qed.

Lemma db_close_ok_run db io :
  db_close_ok (database w db) = true →
  db_close w db io
  = (Ok (), mkIo (remove_first db (open_handles io)) (events io ++ [Closed db])%list).
Proof. unfold db_close. by intros ->. Qed.

Lemma db_close_fails db io :
  db_close_ok (database w db) = false → db_close w db io = (Exn SqliteError, io).
Proof. unfold db_close. by intros ->. Qed.

Lemma remove_first_head p l : remove_first p (p :: l) = l.
Proof. simpl. by rewrite String.eqb_refl. Qed.

Lemma run_bind {A B : Type} (m : M A) (f : A → M B) io :
  (m ≫= f) io
  = match m io with
    | (Ok a, io') => f a io'
    | (Exn e, io') => (Exn e, io')
    end.
Proof. reflexivity. Qed.

Lemma run_try {A : Type} (m : M A) (h : Error → M A) io :
  try_catch m h io
  = match m io with
    | (Ok a, io') => (Ok a, io')
    | (Exn e, io') => h e io'
    end.
Proof. reflexivity. Qed.

(** C8: the analyzer always returns statistics and never an exception;
    when the global database file is absent, or is present and [open], the
    scan or [close] fails, the statistics returned are the initial ones,
    all counts and sizes zero and all dictionaries and lists empty. *)
Theorem analyzer_returns_empty_stats_on_failure (workspacePath : string) io :
  let globalDbPath := path_join [workspacePath; ".."; "globalStorage"; "state.vscdb"] in
  (∃ stats io', analyzeGlobalDatabase w workspacePath io = (Ok stats, io'))
  ∧ (existsSync w globalDbPath = false
     ∨ db_open_ok (database w globalDbPath) = false
     ∨ db_tables (database w globalDbPath) !! "cursorDiskKV" = None
     ∨ db_close_ok (database w globalDbPath) = false →
     ∃ io', analyzeGlobalDatabase w workspacePath io = (Ok initial_stats, io')).
Proof.
  intros g. unfold analyzeGlobalDatabase. fold g.
  destruct (existsSync w g) eqn:Hex; simpl; [| split; eauto].
  rewrite run_try, run_bind.
  destruct (db_open_ok (database w g)) eqn:Hopen;
    [rewrite sqlite_open_ok by done | rewrite sqlite_open_fails by done; split; eauto].
  rewrite run_bind.
  destruct (db_tables (database w g) !! "cursorDiskKV") as [rows |] eqn:Htable;
    [erewrite db_all_ok by done | rewrite db_all_fails by done; split; eauto].
  rewrite run_bind.
  destruct (db_close_ok (database w g)) eqn:Hclose;
    [rewrite db_close_ok_run by done | rewrite db_close_fails by done; split; eauto].
  split; [eauto |]. intros [|[|[|]]]; done.
Qed.

Lemma key_required (request : EntryRequest) io :
  default "" (param_key request) = "" →
  GET_database_entry w request io
  = (Ok (mkResponse 400 (ErrorBody "Key parameter is required")), io).
Proof. unfold GET_database_entry. rewrite run_try. by intros ->. Qed.

Lemma serves_spec (d : DbFile) table :
  serves d table = true ↔ is_Some (db_tables d !! table) ∧ db_close_ok d = true.
Proof.
  unfold serves. rewrite andb_true_iff, bool_decide_eq_true. done.
Qed.

(** The steps of the entry lookup once the key and the workspace path are
    there. *)
Lemma GET_database_entry_located (request : EntryRequest) k workspacePath io :
  param_key request = Some k → k ≠ "" →
  WORKSPACE_PATH w = Some workspacePath → workspacePath ≠ "" →
  GET_database_entry w request io
  = try_catch
      (let dbPath := (locate workspacePath (param_source request)).1 in
       let tableName := (locate workspacePath (param_source request)).2 in
       if negb (existsSync w dbPath) then
         mret (mkResponse 404 (ErrorBody "Database not found"))
       else
         db ← sqlite_open w dbPath;
         result ← db_get w db tableName k;
         db_close w db;;
         match result with
         | None => mret (mkResponse 404 (ErrorBody "Entry not found"))
         | Some row =>
             let parsed := parse_or_raw (value row) in
             bytes ← Buffer_byteLength (value row);
             bytes' ← Buffer_byteLength (value row);
             mret (mkResponse 200 (EntryBody
                     (mkEntryView (key row) (value row) parsed (param_source request) bytes
                        (toFixed2_MB bytes' +:+ " MB"))))
         end)
      (λ _, mret (mkResponse 500 (ErrorBody "Failed to get database entry"))) io.
Proof.
  intros Hk Hk' Hw Hw'. unfold GET_database_entry. rewrite Hk, Hw. simpl.
  rewrite (proj2 (String.eqb_neq _ _) Hk'), (proj2 (String.eqb_neq _ _) Hw').
  by destruct (locate workspacePath (param_source request)).
Qed.

(** After a row is found the handler ends without touching the handles. *)
Lemma entry_tail (source : option string) (result : option Row) io :
  ∃ response,
    try_catch
      (match result with
       | None => mret (mkResponse 404 (ErrorBody "Entry not found"))
       | Some row =>
           let parsed := parse_or_raw (value row) in
           bytes ← Buffer_byteLength (value row);
           bytes' ← Buffer_byteLength (value row);
           mret (mkResponse 200 (EntryBody
                   (mkEntryView (key row) (value row) parsed source bytes
                      (toFixed2_MB bytes' +:+ " MB"))))
       end)
      (λ _, mret (mkResponse 500 (ErrorBody "Failed to get database entry"))) io
    = (Ok response, io)
    ∧ (result = None → response = mkResponse 404 (ErrorBody "Entry not found"))
    ∧ (∀ row, result = Some row → value row = None →
         response = mkResponse 500 (ErrorBody "Failed to get database entry")).
Proof.
  destruct result as [[k [v |]] |]; eexists; (split; [reflexivity |]); split; try done.
  intros row [= <-]. done.
Qed.

Lemma try_bind {A B : Type} (m : M A) (f : A → M B) (h : Error → M B) io :
  try_catch (m ≫= f) h io
  = match m io with
    | (Ok a, io') => try_catch (f a) h io'
    | (Exn e, io') => h e io'
    end.
Proof. unfold try_catch, mbind, M_bind. by destruct (m io) as [[a | e] io']. Qed.

Lemma entry_run_served (request : EntryRequest) k workspacePath rows io :
  param_key request = Some k → k ≠ "" →
  WORKSPACE_PATH w = Some workspacePath → workspacePath ≠ "" →
  let source := param_source request in
  let dbPath := (locate workspacePath source).1 in
  let tableName := (locate workspacePath source).2 in
  existsSync w dbPath = true →
  db_open_ok (database w dbPath) = true →
  db_tables (database w dbPath) !! tableName = Some rows →
  db_close_ok (database w dbPath) = true →
  ∃ response,
    GET_database_entry w request io
    = (Ok response,
       mkIo (open_handles io)
         (events io ++ [Opened dbPath; QueriedOne dbPath tableName k;
                        Closed dbPath])%list)
    ∧ (List.find (λ r, String.eqb (key r) k) rows = None →
       response = mkResponse 404 (ErrorBody "Entry not found")).
Proof.
  intros Hk Hk' Hw Hw' source dbPath tableName Hex Hopen Htable Hclose.
  rewrite (GET_database_entry_located _ k workspacePath) by done.
  cbv zeta. fold source. fold dbPath. fold tableName. rewrite Hex. cbn [negb].
  rewrite try_bind, sqlite_open_ok by done.
  rewrite try_bind. erewrite db_get_ok by done.
  rewrite try_bind, db_close_ok_run by done.
  unfold record_event. cbn [open_handles events]. rewrite remove_first_head.
  destruct (entry_tail source (List.find (λ r, String.eqb (key r) k) rows)
              (mkIo (open_handles io)
                 (((events io ++ [Opened dbPath]) ++ [QueriedOne dbPath tableName k])
                    ++ [Closed dbPath])%list))
    as (response & Hrun & Hnone & _).
  cbv zeta in Hrun. exists response. rewrite Hrun, <- !app_assoc. done.
Qed.

(** When the statement throws, the handler answers 500 and returns with
    the handle it opened. *)
Lemma entry_run_statement_throws (request : EntryRequest) k workspacePath io :
  param_key request = Some k → k ≠ "" →
  WORKSPACE_PATH w = Some workspacePath → workspacePath ≠ "" →
  let source := param_source request in
  let dbPath := (locate workspacePath source).1 in
  let tableName := (locate workspacePath source).2 in
  existsSync w dbPath = true →
  db_open_ok (database w dbPath) = true →
  db_tables (database w dbPath) !! tableName = None →
  GET_database_entry w request io
  = (Ok (mkResponse 500 (ErrorBody "Failed to get database entry")),
     mkIo (dbPath :: open_handles io)
       (events io ++ [Opened dbPath; QueriedOne dbPath tableName k])%list).
Proof.
  intros Hk Hk' Hw Hw' source dbPath tableName Hex Hopen Htable.
  rewrite (GET_database_entry_located _ k workspacePath) by done.
  cbv zeta. fold source. fold dbPath. fold tableName. rewrite Hex. cbn [negb].
  rewrite try_bind, sqlite_open_ok by done.
  rewrite try_bind, db_get_fails by done.
  unfold record_event. cbn [open_handles events]. by rewrite <- !app_assoc.
Qed.

(** C9: the entry lookup answers 400 when the key parameter is missing.
    With a key and a configured workspace path, source "global" designates
    the table cursorDiskKV of the global database file and every other
    source the table ItemTable of the file under that workspace's
    directory; the answer is 404 when that file does not exist; when the
    file opens, the one statement issued is on that table of that file,
    and the answer is 404 when the table has no row with the key. *)
Theorem entry_lookup_routes_by_source (request : EntryRequest) io :
  (param_key request = None →
     GET_database_entry w request io
     = (Ok (mkResponse 400 (ErrorBody "Key parameter is required")), io))
  ∧ ∀ k workspacePath,
      param_key request = Some k → k ≠ "" →
      WORKSPACE_PATH w = Some workspacePath → workspacePath ≠ "" →
      let source := param_source request in
      let dbPath := (locate workspacePath source).1 in
      let tableName := (locate workspacePath source).2 in
      (source = Some "global" →
         dbPath = path_join [workspacePath; ".."; "globalStorage"; "state.vscdb"]
         ∧ tableName = "cursorDiskKV")
      ∧ (source ≠ Some "global" →
         dbPath = path_join [workspacePath; default "" source; "state.vscdb"]
         ∧ tableName = "ItemTable")
      ∧ (existsSync w dbPath = false →
         GET_database_entry w request io
         = (Ok (mkResponse 404 (ErrorBody "Database not found")), io))
      ∧ (∀ rows,
           existsSync w dbPath = true →
           db_open_ok (database w dbPath) = true →
           db_tables (database w dbPath) !! tableName = Some rows →
           db_close_ok (database w dbPath) = true →
           ∃ response,
             GET_database_entry w request io
             = (Ok response,
                mkIo (open_handles io)
                  (events io ++ [Opened dbPath; QueriedOne dbPath tableName k;
                                 Closed dbPath])%list)
             ∧ (List.find (λ r, String.eqb (key r) k) rows = None →
                response = mkResponse 404 (ErrorBody "Entry not found"))).
Proof.
  split.
  { intros Hk. apply key_required. by rewrite Hk. }
  intros k workspacePath Hk Hk' Hw Hw' source dbPath tableName.
  split_and!.
  - intros Hs. subst dbPath tableName. unfold locate. by rewrite bool_decide_eq_true_2.
  - intros Hs. subst dbPath tableName. unfold locate. by rewrite bool_decide_eq_false_2.
  - intros Hex. rewrite (GET_database_entry_located _ k workspacePath) by done.
    cbv zeta. fold source. fold dbPath. by rewrite Hex.
  - intros rows Hex Hopen Htable Hclose.
    by apply (entry_run_served request k workspacePath rows io).
Qed.

(** C10: when the lookup finds a row whose value is null, the byte length
    of the value cannot be taken and the handler answers with the generic
    500 response, neither with the entry nor with 404. *)
Theorem null_value_is_a_server_error (request : EntryRequest) io k workspacePath rows row :
  param_key request = Some k → k ≠ "" →
  WORKSPACE_PATH w = Some workspacePath → workspacePath ≠ "" →
  let dbPath := (locate workspacePath (param_source request)).1 in
  let tableName := (locate workspacePath (param_source request)).2 in
  existsSync w dbPath = true →
  db_open_ok (database w dbPath) = true →
  db_tables (database w dbPath) !! tableName = Some rows →
  List.find (λ r, String.eqb (key r) k) rows = Some row →
  value row = None →
  ∃ io', GET_database_entry w request io
         = (Ok (mkResponse 500 (ErrorBody "Failed to get database entry")), io').
Proof.
  intros Hk Hk' Hw Hw' dbPath tableName Hex Hopen Htable Hfind Hnull.
  rewrite (GET_database_entry_located _ k workspacePath) by done.
  cbv zeta. fold dbPath. fold tableName. rewrite Hex. cbn [negb].
  rewrite try_bind, sqlite_open_ok by done.
  rewrite try_bind. erewrite db_get_ok by done.
  rewrite try_bind. rewrite Hfind.
  destruct (db_close_ok (database w dbPath)) eqn:Hclose.
  - rewrite db_close_ok_run by done.
    match goal with
    | |- ∃ _, try_catch _ _ ?io1 = _ =>
        destruct (entry_tail (param_source request) (Some row) io1)
          as (response & Hrun & _ & Hrow)
    end.
    cbv zeta in Hrun. eexists. rewrite Hrun, (Hrow row) by done. done.
  - rewrite db_close_fails by done. eauto.
Qed.

Lemma entry_keeps_handles (request : EntryRequest) io :
  statements_succeed w →
  open_handles (GET_database_entry w request io).2 = open_handles io.
Proof.
  intros Hw.
  destruct (String.eqb_spec (default "" (param_key request)) "") as [Hk | Hk].
  { by rewrite key_required. }
  destruct (param_key request) as [k |] eqn:Hkey; [simpl in Hk | done].
  destruct (String.eqb_spec (default "" (WORKSPACE_PATH w)) "") as [Hp | Hp].
  { unfold GET_database_entry. rewrite run_try, Hkey. simpl.
    by rewrite (proj2 (String.eqb_neq _ _) Hk), Hp. }
  destruct (WORKSPACE_PATH w) as [workspacePath |] eqn:Hpath; [simpl in Hp | done].
  set (dbPath := (locate workspacePath (param_source request)).1).
  set (tableName := (locate workspacePath (param_source request)).2).
  destruct (existsSync w dbPath) eqn:Hex; cycle 1.
  { rewrite (GET_database_entry_located _ k workspacePath) by done.
    cbv zeta. fold dbPath. by rewrite Hex. }
  destruct (db_open_ok (database w dbPath)) eqn:Hopen; cycle 1.
  { rewrite (GET_database_entry_located _ k workspacePath) by done.
    cbv zeta. fold dbPath. rewrite Hex. cbn [negb].
    by rewrite try_bind, sqlite_open_fails. }
  destruct (Hw dbPath Hopen) as [Hitem Hkv].
  assert (serves (database w dbPath) tableName = true) as Hserves.
  { subst tableName. unfold locate. by case_bool_decide. }
  apply serves_spec in Hserves as [[rows Hrows] Hclose].
  destruct (entry_run_served request k workspacePath rows io) as (response & -> & _); done.
Qed.

Lemma analyzer_keeps_handles (workspacePath : string) io :
  statements_succeed w →
  open_handles (analyzeGlobalDatabase w workspacePath io).2 = open_handles io.
Proof.
  intros Hw. unfold analyzeGlobalDatabase.
  set (g := path_join [workspacePath; ".."; "globalStorage"; "state.vscdb"]).
  destruct (existsSync w g); [| done]. cbn [negb].
  destruct (db_open_ok (database w g)) eqn:Hopen; cycle 1.
  { by rewrite try_bind, sqlite_open_fails. }
  destruct (Hw g Hopen) as [_ [[rows Hrows] Hclose]%serves_spec].
  rewrite try_bind, sqlite_open_ok by done.
  rewrite try_bind. erewrite db_all_ok by done.
  rewrite try_bind, db_close_ok_run by done.
  unfold record_event. cbn. by rewrite String.eqb_refl.
Qed.

Lemma analyzer_statement_throws (workspacePath : string) io :
  let g := path_join [workspacePath; ".."; "globalStorage"; "state.vscdb"] in
  existsSync w g = true →
  db_open_ok (database w g) = true →
  db_tables (database w g) !! "cursorDiskKV" = None →
  analyzeGlobalDatabase w workspacePath io
  = (Ok initial_stats,
     mkIo (g :: open_handles io)
       (events io ++ [Opened g; QueriedAll g "cursorDiskKV"])%list).
Proof.
  intros g Hex Hopen Htable. unfold analyzeGlobalDatabase. fold g.
  rewrite Hex. cbn [negb].
  rewrite try_bind, sqlite_open_ok by done.
  rewrite try_bind, db_all_fails by done.
  unfold record_event. cbn. by rewrite <- !app_assoc.
Qed.

(** The chat and composer blocks neither throw nor touch the handles. *)
Lemma count_and_size_runs (member : string) (result : option Row) :
  ∃ count bytes, ∀ io, count_and_size member result io = (Ok (count, bytes), io).
Proof.
  unfold count_and_size.
  destruct (has_value result); [| exists 0%N, 0%N; reflexivity].
  destruct result as [[k [v |]] |]; try (exists 0%N, 0%N; reflexivity).
  unfold try_catch, mbind, M_bind, lift, mret, M_ret, throw.
  destruct (JSON_parse v) as [data |]; simpl; [| exists 0%N, 0%N; reflexivity].
  destruct (member_length member data) as [n |]; simpl;
    [| exists 0%N, 0%N; reflexivity].
  exists n, (calculateDataSizeMB (Some v)). reflexivity.
Qed.

Lemma count_and_size_malformed (member : string) (row : Row) v io :
  value row = Some v → v ≠ "" → JSON_parse v = None →
  has_value (Some row) = true
  ∧ count_and_size member (Some row) io = (Ok (0%N, 0%N), io).
Proof.
  intros Hv Hne Hparse.
  assert (has_value (Some row) = true) as Hhas.
  { unfold has_value, Js.truthy. rewrite Hv.
    by rewrite (proj2 (String.eqb_neq _ _) Hne). }
  split; [done |].
  unfold count_and_size. rewrite Hhas. destruct row as [k val]. simpl in Hv. subst val.
  unfold try_catch, mbind, M_bind, lift. rewrite Hparse. reflexivity.
Qed.

Lemma read_workspace_folder_runs (workspaceJsonPath : string) :
  ∃ folder, ∀ io, read_workspace_folder w workspaceJsonPath io = (Ok folder, io).
Proof.
  unfold read_workspace_folder, try_catch, mbind, M_bind, fs_readFile, lift,
    mret, M_ret, throw.
  destruct (readFile w workspaceJsonPath) as [text |]; simpl;
    [| exists None; reflexivity].
  destruct (JSON_parse text) as [data |]; simpl; [| exists None; reflexivity].
  destruct (folder_of data) as [f |]; [exists f | exists None]; reflexivity.
Qed.

(** The record of a workspace whose database opens, serves [ItemTable]
    and closes. *)
Lemma visit_dirent_served (workspacePath : string) details (entry : Dirent) rows io :
  let dbPath := path_join [workspacePath; d_name entry; "state.vscdb"] in
  let chatResult := List.find (λ r, String.eqb (key r) chat_key) rows in
  let composerResult := List.find (λ r, String.eqb (key r) "composer.composerData") rows in
  d_isDirectory entry = true →
  existsSync w dbPath = true →
  db_open_ok (database w dbPath) = true →
  db_tables (database w dbPath) !! "ItemTable" = Some rows →
  db_close_ok (database w dbPath) = true →
  ∃ workspaceFolder chats chatBytes composers composerBytes,
    visit_dirent w workspacePath details entry io
    = (Ok (details ++
           [mkWorkspaceStats (d_name entry) (has_value chatResult)
              (has_value composerResult) chats composers workspaceFolder
              chatBytes composerBytes (chatBytes + composerBytes)])%list,
       mkIo (open_handles io)
         (events io ++
          [Opened dbPath; QueriedOne dbPath "ItemTable" chat_key;
           QueriedOne dbPath "ItemTable" "composer.composerData"; Closed dbPath])%list)
    ∧ (∀ io1, count_and_size "tabs" chatResult io1 = (Ok (chats, chatBytes), io1))
    ∧ (∀ io1, count_and_size "allComposers" composerResult io1
              = (Ok (composers, composerBytes), io1)).
Proof.
  intros dbPath chatResult composerResult Hdir Hex Hopen Htable Hclose.
  destruct (read_workspace_folder_runs
              (path_join [workspacePath; d_name entry; "workspace.json"]))
    as (workspaceFolder & Hfolder).
  destruct (count_and_size_runs "tabs" chatResult) as (chats & chatBytes & Hchat).
  destruct (count_and_size_runs "allComposers" composerResult)
    as (composers & composerBytes & Hcomposer).
  exists workspaceFolder, chats, chatBytes, composers, composerBytes.
  split; [| done].
  unfold visit_dirent. rewrite Hdir. fold dbPath. rewrite Hex. cbn [negb].
  rewrite try_bind, Hfolder.
  rewrite try_bind, sqlite_open_ok by done.
  rewrite try_bind. erewrite db_get_ok by done. fold chat_key. fold chatResult.
  rewrite try_bind, Hchat.
  rewrite try_bind. erewrite db_get_ok by done. fold composerResult.
  rewrite try_bind, Hcomposer.
  rewrite try_bind, db_close_ok_run by done.
  unfold record_event. cbn. rewrite String.eqb_refl, <- !app_assoc. done.
Qed.

(** The loop body answers for every directory entry, and only ever
    appends to the list of records. *)
Lemma visit_dirent_extends (workspacePath : string) details (entry : Dirent) io :
  ∃ more io',
    visit_dirent w workspacePath details entry io = (Ok (details ++ more)%list, io').
Proof.
  unfold visit_dirent.
  destruct (d_isDirectory entry); [| exists [], io; by rewrite app_nil_r].
  destruct (existsSync w _); cbn [negb]; [| exists [], io; by rewrite app_nil_r].
  rewrite run_try.
  match goal with |- context [match ?m io with _ => _ end] => destruct (m io) as [[l | e] io'] eqn:Hrun end.
  - revert Hrun. rewrite run_bind.
    destruct (read_workspace_folder_runs
                (path_join [workspacePath; d_name entry; "workspace.json"])) as (f & ->).
    rewrite run_bind. destruct (sqlite_open w _ io) as [[db | e] io1]; [| done].
    rewrite run_bind. destruct (db_get w db _ _ io1) as [[chat | e] io2]; [| done].
    rewrite run_bind.
    destruct (count_and_size_runs "tabs" chat) as (c1 & s1 & ->).
    rewrite run_bind. destruct (db_get w db _ _ io2) as [[comp | e] io3]; [| done].
    rewrite run_bind.
    destruct (count_and_size_runs "allComposers" comp) as (c2 & s2 & ->).
    rewrite run_bind. destruct (db_close w db io3) as [[[] | e] io4]; [| done].
    intros [= <- <-]. eauto.
  - exists [], io'. by rewrite app_nil_r.
Qed.

Lemma visit_dirents_extends (workspacePath : string) entries details io :
  ∃ more io',
    visit_dirents w workspacePath details entries io = (Ok (details ++ more)%list, io').
Proof.
  revert details io. induction entries as [| entry rest IH]; intros details io.
  - exists [], io. by rewrite app_nil_r.
  - cbn [visit_dirents]. rewrite run_bind.
    destruct (visit_dirent_extends workspacePath details entry io) as (more & io' & ->).
    destruct (IH (details ++ more)%list io') as (more' & io'' & ->).
    exists (more ++ more')%list, io''. by rewrite app_assoc.
Qed.

Lemma visit_dirent_keeps_handles (workspacePath : string) details (entry : Dirent) io :
  statements_succeed w →
  open_handles (visit_dirent w workspacePath details entry io).2 = open_handles io.
Proof.
  intros Hw.
  destruct (d_isDirectory entry) eqn:Hdir; [| unfold visit_dirent; by rewrite Hdir].
  set (dbPath := path_join [workspacePath; d_name entry; "state.vscdb"]).
  destruct (existsSync w dbPath) eqn:Hex;
    [| unfold visit_dirent; fold dbPath; by rewrite Hdir, Hex].
  destruct (db_open_ok (database w dbPath)) eqn:Hopen.
  - destruct (Hw dbPath Hopen) as [[[rows Hrows] Hclose]%serves_spec _].
    destruct (visit_dirent_served workspacePath details entry rows io)
      as (? & ? & ? & ? & ? & -> & _); done.
  - unfold visit_dirent. fold dbPath. rewrite Hdir, Hex. cbn [negb].
    rewrite try_bind.
    destruct (read_workspace_folder_runs
                (path_join [workspacePath; d_name entry; "workspace.json"])) as (f & ->).
    by rewrite try_bind, sqlite_open_fails.
Qed.

Lemma visit_dirents_keeps_handles (workspacePath : string) entries details io :
  statements_succeed w →
  open_handles (visit_dirents w workspacePath details entries io).2 = open_handles io.
Proof.
  intros Hw. revert details io.
  induction entries as [| entry rest IH]; intros details io; [done |].
  cbn [visit_dirents]. rewrite run_bind.
  pose proof (visit_dirent_keeps_handles workspacePath details entry io Hw) as Hone.
  destruct (visit_dirent_extends workspacePath details entry io) as (more & io' & Hrun).
  rewrite Hrun in Hone |- *. simpl in Hone. by rewrite IH.
Qed.

Lemma statistics_keeps_handles io :
  statements_succeed w →
  open_handles (GET_statistics w io).2 = open_handles io.
Proof.
  intros Hw. unfold GET_statistics. cbv zeta.
  destruct (String.eqb (default "" (WORKSPACE_PATH w)) ""); [done |].
  set (workspacePath := default "" (WORKSPACE_PATH w)).
  rewrite try_bind. unfold fs_readdir.
  destruct (readdir w workspacePath) as [entries |]; [| done].
  cbn [lift]. unfold mret at 1, M_ret at 1.
  rewrite try_bind.
  pose proof (visit_dirents_keeps_handles workspacePath entries [] io Hw) as Hscan.
  destruct (visit_dirents_extends workspacePath entries [] io) as (more & io' & Hrun).
  rewrite Hrun in Hscan |- *. simpl in Hscan.
  rewrite try_bind.
  pose proof (analyzer_keeps_handles workspacePath io' Hw) as Hglobal.
  destruct (analyzeGlobalDatabase w workspacePath io') as [[stats | e] io''];
    simpl in Hglobal |- *; congruence.
Qed.

(** C5 (amended): for a workspace whose database opens, serves ItemTable
    and closes, and whose chat-data (resp. composer-data) value is
    non-empty text that JSON.parse rejects, the scanner still appends that
    workspace's record, nothing is thrown and the scan goes on; the record
    has hasChats (resp. hasComposers) true, the count 0, and the size 0:
    the size is assigned after the parse, in the same try block. *)
Theorem malformed_json_zeroes_count_and_size
    (workspacePath : string) details (entry : Dirent) rows (row : Row) v io :
  let dbPath := path_join [workspacePath; d_name entry; "state.vscdb"] in
  d_isDirectory entry = true →
  existsSync w dbPath = true →
  db_open_ok (database w dbPath) = true →
  db_tables (database w dbPath) !! "ItemTable" = Some rows →
  db_close_ok (database w dbPath) = true →
  value row = Some v → v ≠ "" → JSON_parse v = None →
  ∃ record io',
    visit_dirent w workspacePath details entry io = (Ok (details ++ [record])%list, io')
    ∧ ws_id record = d_name entry
    ∧ (List.find (λ r, String.eqb (key r) chat_key) rows = Some row →
       hasChats record = true ∧ chatCount record = 0%N ∧ chatDataSizeMB record = 0%N)
    ∧ (List.find (λ r, String.eqb (key r) "composer.composerData") rows = Some row →
       hasComposers record = true ∧ composerCount record = 0%N
       ∧ ws_composerDataSizeMB record = 0%N)
    ∧ ∀ rest, ∃ l io'',
        visit_dirents w workspacePath details (entry :: rest) io = (Ok l, io'')
        ∧ record ∈ l.
Proof.
  intros dbPath Hdir Hex Hopen Htable Hclose Hv Hne Hparse.
  destruct (visit_dirent_served workspacePath details entry rows io)
    as (f & c1 & s1 & c2 & s2 & Hrun & Hchat & Hcomposer); try done.
  eexists _, _. split; [exact Hrun |]. split; [done |]. split_and!.
  - intros Hfind. rewrite Hfind in Hchat |- *.
    destruct (count_and_size_malformed "tabs" row v io Hv Hne Hparse) as [Hhas Hzero].
    rewrite Hchat in Hzero. injection Hzero as -> ->. done.
  - intros Hfind. rewrite Hfind in Hcomposer |- *.
    destruct (count_and_size_malformed "allComposers" row v io Hv Hne Hparse)
      as [Hhas Hzero].
    rewrite Hcomposer in Hzero. injection Hzero as -> ->. done.
  - intros rest. cbn [visit_dirents]. rewrite run_bind, Hrun.
    match goal with
    | |- context [visit_dirents w workspacePath ?d rest ?i] =>
        destruct (visit_dirents_extends workspacePath rest d i) as (more & io'' & ->)
    end.
    eexists _, _. split; [done |]. set_solver.
Qed.

(** C7 (amended): when every database that opens serves its statements
    and closes, each of the three handlers returns with the handles it
    found, whatever JSON.parse does on the values read.  When a statement
    throws after a successful open, the entry lookup and the analyzer
    return with the handle still open: no handler closes in a finally. *)
Theorem handles_closed_unless_a_statement_throws :
  (statements_succeed w →
     ∀ io,
       (∀ request, open_handles (GET_database_entry w request io).2 = open_handles io)
       ∧ (∀ workspacePath,
            open_handles (analyzeGlobalDatabase w workspacePath io).2 = open_handles io)
       ∧ open_handles (GET_statistics w io).2 = open_handles io)
  ∧ (∀ request io k workspacePath,
       param_key request = Some k → k ≠ "" →
       WORKSPACE_PATH w = Some workspacePath → workspacePath ≠ "" →
       let dbPath := (locate workspacePath (param_source request)).1 in
       let tableName := (locate workspacePath (param_source request)).2 in
       existsSync w dbPath = true →
       db_open_ok (database w dbPath) = true →
       db_tables (database w dbPath) !! tableName = None →
       open_handles (GET_database_entry w request io).2 = dbPath :: open_handles io)
  ∧ (∀ workspacePath io,
       let globalDbPath :=
         path_join [workspacePath; ".."; "globalStorage"; "state.vscdb"] in
       existsSync w globalDbPath = true →
       db_open_ok (database w globalDbPath) = true →
       db_tables (database w globalDbPath) !! "cursorDiskKV" = None →
       open_handles (analyzeGlobalDatabase w workspacePath io).2
       = globalDbPath :: open_handles io).
Proof.
  split_and!.
  - intros Hw io. split_and!.
    + intros request. by apply entry_keeps_handles.
    + intros workspacePath. by apply analyzer_keeps_handles.
    + by apply statistics_keeps_handles.
  - intros request io k workspacePath Hk Hk' Hp Hp' dbPath tableName Hex Hopen Htable.
    by rewrite (entry_run_statement_throws request k workspacePath io).
  - intros workspacePath io g Hex Hopen Htable.
    by rewrite analyzer_statement_throws.
Qed.
End Requests.

(** ** The pruner *)

Section Pruner.
Context `{Runtime} (w : World).

Implicit Types (st : PruneState) (ids : list string) (fs : FileSystem).

Lemma fs_rm_removes fs path fs' :
  fs_rm fs path = inr fs' →
  (path ∉ present fs') ∧ (present fs' ⊆ present fs) ∧ refused fs' = refused fs.
Proof.
  unfold fs_rm. destruct (refused fs !! path); [done |].
  intros [= <-]. simpl. split_and!; [| | done].
  - rewrite elem_of_filter, path_within_refl. by intros [? _].
  - intros q. rewrite elem_of_filter. by intros [_ ?].
Qed.

(** The three ways an item ends. *)
Lemma remove_workspace_cases (workspacePath : string) st (workspaceId : string) :
  let workspaceDir := path_join [workspacePath; workspaceId] in
  let st' := remove_workspace workspacePath st workspaceId in
  ((workspaceDir ∉ present (disk st))
   ∧ st' = mkPrune (disk st) (removed st)
             (failures st ++
              [mkRemovalError workspaceId "Workspace directory not found"])%list)
  ∨ (workspaceDir ∈ present (disk st)
     ∧ ∃ disk', fs_rm (disk st) workspaceDir = inr disk'
         ∧ st' = mkPrune disk' (removed st ++ [workspaceId])%list (failures st))
  ∨ (workspaceDir ∈ present (disk st)
     ∧ ∃ msg, refused (disk st) !! workspaceDir = Some msg
         ∧ st' = mkPrune (disk st) (removed st)
                   (failures st ++ [mkRemovalError workspaceId msg])%list).
Proof.
  intros workspaceDir st'. subst st'. unfold remove_workspace, fs_access. fold workspaceDir.
  case_bool_decide as Hin; cbn [negb]; [| by left].
  right. destruct (fs_rm (disk st) workspaceDir) as [msg | disk'] eqn:Hrm.
  - right. split; [done |]. exists msg. split; [| done].
    unfold fs_rm in Hrm. by destruct (refused (disk st) !! workspaceDir) as [m |]; simplify_eq.
  - left. eauto.
Qed.

(** Each item adds one entry to one of the two lists, and the disk only
    loses paths. *)
Lemma remove_workspace_progress (workspacePath : string) st (workspaceId : string) :
  let st' := remove_workspace workspacePath st workspaceId in
  present (disk st') ⊆ present (disk st)
  ∧ refused (disk st') = refused (disk st)
  ∧ (∃ more, removed st' = (removed st ++ more)%list)
  ∧ (∃ more, failures st' = (failures st ++ more)%list)
  ∧ (length (removed st') + length (failures st')
     = S (length (removed st) + length (failures st)))%nat
  ∧ (∀ id, id ∈ removed st' →
       id ∈ removed st
       ∨ (id = workspaceId ∧ path_join [workspacePath; id] ∈ present (disk st))).
Proof.
  intros st'.
  destruct (remove_workspace_cases workspacePath st workspaceId)
    as [(Hout & Heq) | [(Hin & disk' & Hrm & Heq) | (Hin & msg & Hmsg & Heq)]];
    fold st' in Heq; rewrite Heq; simpl.
  - split_and!; eauto; [by exists [] ; rewrite app_nil_r | rewrite length_app; simpl; lia].
  - apply fs_rm_removes in Hrm as (Hgone & Hsub & Href).
    split_and!; eauto; [by exists []; rewrite app_nil_r | rewrite length_app; simpl; lia |].
    intros id [Hid | ->%list_elem_of_singleton]%elem_of_app; eauto.
  - split_and!; eauto; [by exists [] ; rewrite app_nil_r | rewrite length_app; simpl; lia].
Qed.

Lemma remove_workspaces_progress (workspacePath : string) ids st :
  let st' := remove_workspaces workspacePath ids st in
  present (disk st') ⊆ present (disk st)
  ∧ refused (disk st') = refused (disk st)
  ∧ (∃ more, removed st' = (removed st ++ more)%list)
  ∧ (∃ more, failures st' = (failures st ++ more)%list)
  ∧ (length (removed st') + length (failures st')
     = length ids + (length (removed st) + length (failures st)))%nat
  ∧ (∀ id, id ∈ removed st' →
       id ∈ removed st
       ∨ (id ∈ ids ∧ path_join [workspacePath; id] ∈ present (disk st))).
Proof.
  revert st. induction ids as [| workspaceId rest IH]; intros st; cbn zeta.
  - simpl. split_and!; eauto; by exists []; rewrite app_nil_r.
  - unfold remove_workspaces in *. cbn [fold_left].
    destruct (remove_workspace_progress workspacePath st workspaceId)
      as (Hsub & Href & (r1 & Hr1) & (f1 & Hf1) & Hlen & Hrem).
    destruct (IH (remove_workspace workspacePath st workspaceId))
      as (Hsub' & Href' & (r2 & Hr2) & (f2 & Hf2) & Hlen' & Hrem').
    cbn zeta in *.
    split_and!.
    + by transitivity (present (disk (remove_workspace workspacePath st workspaceId))).
    + congruence.
    + exists (r1 ++ r2)%list. by rewrite Hr2, Hr1, app_assoc.
    + exists (f1 ++ f2)%list. by rewrite Hf2, Hf1, app_assoc.
    + simpl. lia.
    + intros id Hid. destruct (Hrem' id Hid) as [Hid' | [Hin Hpresent]].
      * destruct (Hrem id Hid') as [| [-> ?]]; [by left | right].
        split; [constructor | done].
      * right. split; [by constructor |]. by apply Hsub.
Qed.

Lemma remove_workspaces_app (workspacePath : string) ids ids' st :
  remove_workspaces workspacePath (ids ++ ids')%list st
  = remove_workspaces workspacePath ids' (remove_workspaces workspacePath ids st).
Proof. apply fold_left_app. Qed.

(** An item whose directory is absent when the batch starts is reported
    as not found. *)
Lemma absent_is_reported (workspacePath : string) ids st (workspaceId : string) :
  workspaceId ∈ ids →
  path_join [workspacePath; workspaceId] ∉ present (disk st) →
  mkRemovalError workspaceId "Workspace directory not found"
  ∈ failures (remove_workspaces workspacePath ids st).
Proof.
  revert st. induction ids as [| id rest IH]; intros st Hin Hout; [set_solver |].
  unfold remove_workspaces in *. cbn [fold_left].
  destruct (remove_workspace_progress workspacePath st id) as (Hsub & _).
  apply elem_of_cons in Hin as [-> | Hin].
  - destruct (remove_workspace_cases workspacePath st id)
      as [(_ & Heq) | [(Hpresent & _) | (Hpresent & _)]]; [| done | done].
    destruct (remove_workspaces_progress workspacePath rest
                (remove_workspace workspacePath st id)) as (_ & _ & _ & (more & Hf) & _).
    unfold remove_workspaces in Hf. rewrite Hf, Heq. simpl. set_solver.
  - apply IH; [done |]. set_solver.
Qed.

(** C6: with a configured workspace path the pruner answers every list
    of identifiers with the success report; every item adds one entry to
    one of the two lists, whatever happened to the items before it;
    removedCount is the length of removedWorkspaces; an identifier whose
    directory is absent is reported in errors as not found and is not in
    removedWorkspaces; an identifier whose directory is there when its turn
    comes is removed from the disk and is in removedWorkspaces, unless the
    system refuses the removal, in which case it is in errors with the
    message of the refusal. *)
Theorem pruner_processes_every_item (workspacePath : string) ids fs :
  WORKSPACE_PATH w = Some workspacePath → workspacePath ≠ "" →
  ∃ r fs',
    DELETE w (IdList ids) fs = (mkResponse 200 (RemovalBody r), fs')
    ∧ success r = true
    ∧ removedCount r = N.of_nat (length (removedWorkspaces r))
    ∧ (length (removedWorkspaces r) + length (errors r) = length ids)%nat
    ∧ (∀ id, id ∈ ids →
         path_join [workspacePath; id] ∉ present fs →
         mkRemovalError id "Workspace directory not found" ∈ errors r
         ∧ id ∉ removedWorkspaces r)
    ∧ (∀ before id after,
         ids = (before ++ id :: after)%list →
         let turn := remove_workspaces workspacePath before (mkPrune fs [] []) in
         path_join [workspacePath; id] ∈ present (disk turn) →
         refused fs !! path_join [workspacePath; id] = None →
         id ∈ removedWorkspaces r ∧ path_join [workspacePath; id] ∉ present fs')
    ∧ (∀ before id after msg,
         ids = (before ++ id :: after)%list →
         let turn := remove_workspaces workspacePath before (mkPrune fs [] []) in
         path_join [workspacePath; id] ∈ present (disk turn) →
         refused fs !! path_join [workspacePath; id] = Some msg →
         mkRemovalError id msg ∈ errors r).
Proof.
  intros Hw Hne. unfold DELETE. rewrite Hw. simpl.
  rewrite (proj2 (String.eqb_neq _ _) Hne).
  set (final := remove_workspaces workspacePath ids (mkPrune fs [] [])).
  exists (report final), (disk final).
  destruct (remove_workspaces_progress workspacePath ids (mkPrune fs [] []))
    as (Hsub & Href & _ & _ & Hlen & Hrem).
  fold final in Hsub, Href, Hlen, Hrem. simpl in Hsub, Href, Hlen, Hrem.
  split_and!; try done.
  - simpl. lia.
  - intros id Hin Hout. split.
    + by apply absent_is_reported.
    + intros Hid. destruct (Hrem id Hid) as [Hnil | [_ Hpresent]]; [set_solver | done].
  - intros before id after Hids.
    set (turn := remove_workspaces workspacePath before (mkPrune fs [] [])).
    intros Hpresent Hallowed.
    destruct (remove_workspaces_progress workspacePath before (mkPrune fs [] []))
      as (_ & Href1 & _).
    fold turn in Href1. simpl in Href1.
    destruct (remove_workspace_cases workspacePath turn id)
      as [(Hout & _) | [(_ & disk' & Hrm & Heq) | (_ & msg & Hmsg & _)]];
      [done | | congruence].
    apply fs_rm_removes in Hrm as (Hgone & _).
    destruct (remove_workspaces_progress workspacePath after
                (remove_workspace workspacePath turn id))
      as (Hsub2 & _ & (more & Hr2) & _).
    assert (final = remove_workspaces workspacePath after
                      (remove_workspace workspacePath turn id)) as Hfinal.
    { subst final turn. rewrite Hids, remove_workspaces_app. done. }
    rewrite <- Hfinal in Hsub2, Hr2. rewrite Heq in Hsub2, Hr2. simpl in Hsub2, Hr2.
    split.
    + simpl. rewrite Hr2. set_solver.
    + set_solver.
  - intros before id after msg Hids.
    set (turn := remove_workspaces workspacePath before (mkPrune fs [] [])).
    intros Hpresent Hrefused.
    destruct (remove_workspaces_progress workspacePath before (mkPrune fs [] []))
      as (_ & Href1 & _).
    fold turn in Href1. simpl in Href1.
    destruct (remove_workspace_cases workspacePath turn id)
      as [(Hout & _) | [(_ & disk' & Hrm & _) | (_ & msg' & Hmsg & Heq)]]; [done | |].
    { unfold fs_rm in Hrm. rewrite Href1, Hrefused in Hrm. done. }
    assert (msg' = msg) as -> by congruence.
    destruct (remove_workspaces_progress workspacePath after
                (remove_workspace workspacePath turn id))
      as (_ & _ & _ & (more & Hf2) & _).
    assert (final = remove_workspaces workspacePath after
                      (remove_workspace workspacePath turn id)) as Hfinal.
    { subst final turn. rewrite Hids, remove_workspaces_app. done. }
    rewrite <- Hfinal in Hf2. rewrite Heq in Hf2. simpl in Hf2.
    simpl. rewrite Hf2. set_solver.
Qed.
End Pruner.

(** ** The handlers on the sample worlds *)

(** The specification gives the record of a malformed chat value the byte
    length of that value; the scanner gives it 0. *)
Lemma malformed_chat_has_size_zero :
  ¬ ∃ record io',
      visit_dirent (H := sample_runtime) (sample_world malformed_tables) "/ws" []
        (mkDirent "w1" true) io0 = (Ok [record], io')
      ∧ hasChats record = true
      ∧ chatDataSizeMB record = Js.byteLength "{oops".
Proof.
  intros (record & io' & Hrun & _ & Hsize).
  vm_compute in Hrun. injection Hrun as <- _. vm_compute in Hsize. discriminate.
Qed.

Lemma malformed_json_witness :
  ∃ record io',
    visit_dirent (H := sample_runtime) (sample_world malformed_tables) "/ws" []
      (mkDirent "w1" true) io0 = (Ok [record], io')
    ∧ hasChats record = true ∧ chatCount record = 0%N ∧ chatDataSizeMB record = 0%N.
Proof.
  destruct (malformed_json_zeroes_count_and_size (H := sample_runtime)
              (sample_world malformed_tables) "/ws" [] (mkDirent "w1" true)
              [mkRow chat_key (Some "{oops"); mkRow "composer.composerData" (Some "{oops")]
              (mkRow chat_key (Some "{oops")) "{oops" io0
              eq_refl eq_refl eq_refl eq_refl eq_refl eq_refl
              ltac:(discriminate) eq_refl)
    as (record & io' & Hrun & _ & Hchat & _).
  exists record, io'. split; [exact Hrun |]. exact (Hchat eq_refl).
Defined.

Lemma statement_throw_leaks_the_handle :
  open_handles (GET_database_entry (H := sample_runtime) (sample_world ∅)
                  (mkEntryRequest (Some "k") (Some "w1")) io0).2 ≠ [].
Proof. vm_compute. discriminate. Qed.

Lemma handles_witness :
  statements_succeed (sample_world malformed_tables)
  ∧ open_handles (GET_statistics (H := sample_runtime) (sample_world malformed_tables) io0).2 = []
  ∧ open_handles (GET_database_entry (H := sample_runtime) (sample_world ∅)
                    (mkEntryRequest (Some "k") (Some "w1")) io0).2
    = ["/ws/w1/state.vscdb"].
Proof.
  assert (statements_succeed (sample_world malformed_tables)) as Hserves.
  { intros path _. split; reflexivity. }
  destruct (handles_closed_unless_a_statement_throws (H := sample_runtime)
              (sample_world malformed_tables)) as (Hkeep & _).
  destruct (handles_closed_unless_a_statement_throws (H := sample_runtime)
              (sample_world ∅)) as (_ & Hleak & _).
  split; [exact Hserves |]. split.
  - exact (proj2 (proj2 (Hkeep Hserves io0))).
  - exact (Hleak (mkEntryRequest (Some "k") (Some "w1")) io0 "k" "/ws"
             eq_refl ltac:(discriminate) eq_refl ltac:(discriminate)
             eq_refl eq_refl eq_refl).
Defined.

Lemma analyzer_witness :
  db_tables (database (sample_world ∅) "/ws/../globalStorage/state.vscdb") !! "cursorDiskKV" = None
  ∧ ∃ io', analyzeGlobalDatabase (H := sample_runtime) (sample_world ∅) "/ws" io0
           = (Ok initial_stats, io').
Proof.
  split; [reflexivity |].
  apply (proj2 (analyzer_returns_empty_stats_on_failure (H := sample_runtime)
                  (sample_world ∅) "/ws" io0)).
  right. right. left. reflexivity.
Defined.

Lemma entry_lookup_witness :
  GET_database_entry (H := sample_runtime) (sample_world malformed_tables)
    (mkEntryRequest None (Some "global")) io0
  = (Ok (mkResponse 400 (ErrorBody "Key parameter is required")), io0)
  ∧ ∃ response,
      GET_database_entry (H := sample_runtime) (sample_world malformed_tables)
        (mkEntryRequest (Some "absent") (Some "global")) io0
      = (Ok response,
         mkIo [] [Opened "/ws/../globalStorage/state.vscdb";
                  QueriedOne "/ws/../globalStorage/state.vscdb" "cursorDiskKV" "absent";
                  Closed "/ws/../globalStorage/state.vscdb"])
      ∧ response = mkResponse 404 (ErrorBody "Entry not found").
Proof.
  split.
  - exact (proj1 (entry_lookup_routes_by_source (H := sample_runtime)
                    (sample_world malformed_tables)
                    (mkEntryRequest None (Some "global")) io0) eq_refl).
  - destruct (proj2 (entry_lookup_routes_by_source (H := sample_runtime)
                       (sample_world malformed_tables)
                       (mkEntryRequest (Some "absent") (Some "global")) io0)
                "absent" "/ws" eq_refl ltac:(discriminate) eq_refl ltac:(discriminate))
      as (_ & _ & _ & Hserved).
    destruct (Hserved [mkRow "bubbleId:1" (Some "hello"); mkRow "n" None]
                eq_refl eq_refl eq_refl eq_refl) as (response & Hrun & Hnone).
    exists response. split; [exact Hrun | exact (Hnone eq_refl)].
Defined.

Lemma null_value_witness :
  ∃ io', GET_database_entry (H := sample_runtime) (sample_world malformed_tables)
           (mkEntryRequest (Some "n") (Some "global")) io0
         = (Ok (mkResponse 500 (ErrorBody "Failed to get database entry")), io').
Proof.
  exact (null_value_is_a_server_error (H := sample_runtime) (sample_world malformed_tables)
           (mkEntryRequest (Some "n") (Some "global")) io0 "n" "/ws"
           [mkRow "bubbleId:1" (Some "hello"); mkRow "n" None] (mkRow "n" None)
           eq_refl ltac:(discriminate) eq_refl ltac:(discriminate)
           eq_refl eq_refl eq_refl eq_refl eq_refl).
Defined.

Lemma pruner_witness :
  ∃ r fs',
    DELETE (H := sample_runtime) (sample_world ∅) (IdList ["a"; "b"; "c"]) sample_disk
    = (mkResponse 200 (RemovalBody r), fs')
    ∧ removedWorkspaces r = ["a"; "c"]
    ∧ removedCount r = 2%N
    ∧ length (errors r) = 1%nat
    ∧ mkRemovalError "b" "Workspace directory not found" ∈ errors r.
Proof.
  destruct (pruner_processes_every_item (H := sample_runtime) (sample_world ∅) "/ws"
              ["a"; "b"; "c"] sample_disk eq_refl ltac:(discriminate))
    as (r & fs' & Hrun & _ & Hcount & _ & Habsent & _).
  exists r, fs'. split; [exact Hrun |].
  vm_compute in Hrun. injection Hrun as <- <-.
  repeat split. constructor.
Defined.

(** * Further properties of the code *)

(** ** The analyzer's counters *)

Section AnalyzerMore.
Implicit Types (r : Row) (rows : list Row) (st : ScanState).

(** One turn of the loop, however it ends: [totalEntries] and
    [largestEntries] are untouched, the two entry counters grow by at most
    one together, and the two sizes keep adding up to the total size. *)
Lemma visit_counters st r :
  let st' := outcome_state (visit st r) in
  totalEntries st'.1 = totalEntries st.1
  ∧ (otherEntries st'.1 + composerEntries st'.1
     ≤ otherEntries st.1 + composerEntries st.1 + 1)%N
  ∧ ((otherDataSizeMB st.1 + composerDataSizeMB st.1 = totalSizeMB st.1)%N →
     (otherDataSizeMB st'.1 + composerDataSizeMB st'.1 = totalSizeMB st'.1)%N)
  ∧ largestEntries st'.1 = largestEntries st.1.
Proof.
  destruct st as [stats all]. unfold visit.
  destruct (value r) as [v |]; [| simpl; split_and!; [done | lia | done | done]].
  destruct (Js.truthy (Some v)); cbn [negb];
    [| simpl; split_and!; [done | lia | done | done]].
  destruct (Js.startsWith (key r) "composerData:").
  { simpl. split_and!; [done | lia | lia | done]. }
  repeat match goal with
         | |- context [match ?x with _ => _ end] => destruct x
         end; simpl; (split_and!; [done | lia | lia | done]).
Qed.

(** The same for the whole loop. *)
Lemma scan_counters rows st :
  let st' := outcome_state (scan rows st) in
  totalEntries st'.1 = totalEntries st.1
  ∧ (otherEntries st'.1 + composerEntries st'.1
     ≤ otherEntries st.1 + composerEntries st.1 + N.of_nat (length rows))%N
  ∧ ((otherDataSizeMB st.1 + composerDataSizeMB st.1 = totalSizeMB st.1)%N →
     (otherDataSizeMB st'.1 + composerDataSizeMB st'.1 = totalSizeMB st'.1)%N)
  ∧ largestEntries st'.1 = largestEntries st.1.
Proof.
  revert st. induction rows as [| r rest IH]; intros st; cbn zeta.
  - simpl. split_and!; [done | lia | done | done].
  - pose proof (visit_counters st r) as Hvisit. cbn zeta in Hvisit.
    cbn [scan]. destruct (visit st r) as [st1 | st1]; simpl in Hvisit.
    + specialize (IH st1). cbn zeta in IH.
      destruct Hvisit as (H1 & H2 & H3 & H4), IH as (I1 & I2 & I3 & I4).
      split_and!; [congruence | | tauto | congruence].
      cbn [length]. lia.
    + simpl. destruct Hvisit as (H1 & H2 & H3 & H4).
      split_and!; [done | | done | done]. cbn [length]. lia.
Qed.

(** X1: on every table, also on one whose loop throws, [totalEntries] is
    the number of rows, [otherEntries] and [composerEntries] together
    never exceed it, and [otherDataSizeMB] and [composerDataSizeMB] add up
    to [totalSizeMB]. *)
Theorem counters_on_every_table rows :
  let stats := analyze_entries rows in
  totalEntries stats = N.of_nat (length rows)
  ∧ (otherEntries stats + composerEntries stats ≤ totalEntries stats)%N
  ∧ (otherDataSizeMB stats + composerDataSizeMB stats)%N = totalSizeMB stats.
Proof.
  cbn zeta. unfold analyze_entries.
  pose proof (scan_counters rows
                (mkStats (N.of_nat (length rows)) 0 0 0 0 0 ∅ ∅ [] ∅, [])) as Hscan.
  cbn zeta in Hscan.
  destruct (scan rows _) as [[stats all] | [stats all]]; simpl in *;
    destruct Hscan as (H1 & H2 & H3 & _); (split_and!; [done | lia | by apply H3]).
Qed.
End AnalyzerMore.

(** ** Rows without a value *)

Section Uncounted.
Implicit Types (r : Row) (rows : list Row) (st : ScanState).

(** The loop passes over the rows without a value. *)
Lemma scan_skips_uncounted rows st :
  scan rows st = scan (List.filter counted rows) st.
Proof.
  revert st. induction rows as [| r rest IH]; intros st; [done |].
  cbn [scan List.filter]. destruct (counted r) eqn:Hc.
  - cbn [scan]. destruct (visit st r); [apply IH | done].
  - rewrite (visit_skip st r Hc). apply IH.
Qed.

(** No turn of the loop reads [totalEntries]. *)
Lemma visit_with_total total stats all r :
  visit (with_totalEntries total stats, all) r
  = match visit (stats, all) r with
    | Normal (s, a) => Normal (with_totalEntries total s, a)
    | Thrown (s, a) => Thrown (with_totalEntries total s, a)
    end.
Proof.
  unfold visit. cbn [with_totalEntries totalEntries composerEntries otherEntries
    totalSizeMB composerDataSizeMB otherDataSizeMB entriesByType entriesSizeByType
    largestEntries sampleKeys].
  destruct stats as [t c o ts cs os byT sbyT lg sam]; cbn.
  destruct (value r) as [v |]; [| reflexivity].
  destruct (String.eqb v ""); cbn [negb]; [reflexivity |].
  destruct (Js.startsWith (key r) "composerData:"); [reflexivity |].
  repeat match goal with
         | |- context [match ?x with _ => _ end] => destruct x
         end; reflexivity.
Qed.

(** Nor does the loop. *)
Lemma scan_with_total total rows stats all :
  scan rows (with_totalEntries total stats, all)
  = match scan rows (stats, all) with
    | Normal (s, a) => Normal (with_totalEntries total s, a)
    | Thrown (s, a) => Thrown (with_totalEntries total s, a)
    end.
Proof.
  revert stats all. induction rows as [| r rest IH]; intros stats all; [reflexivity |].
  cbn [scan]. rewrite visit_with_total.
  destruct (visit (stats, all) r) as [[s a] | [s a]]; [apply IH | reflexivity].
Qed.

(** X2: the rows whose value is [null] or empty show in [totalEntries]
    and nowhere else: the statistics of a table are those of its counted
    rows, with [totalEntries] the number of all its rows. *)
Theorem uncounted_rows_only_count rows :
  analyze_entries rows
  = with_totalEntries (N.of_nat (length rows))
      (analyze_entries (List.filter counted rows)).
Proof.
  unfold analyze_entries. rewrite (scan_skips_uncounted rows).
  change (mkStats (N.of_nat (length rows)) 0 0 0 0 0 ∅ ∅ [] ∅)
    with (with_totalEntries (N.of_nat (length rows))
            (mkStats (N.of_nat (length (List.filter counted rows))) 0 0 0 0 0 ∅ ∅ [] ∅)).
  rewrite scan_with_total.
  destruct (scan (List.filter counted rows) _) as [[s a] | [s a]]; reflexivity.
Qed.
End Uncounted.

(** ** The types that are retained, and the loop that throws *)

Section Buckets.
Implicit Types (r : Row) (rows : list Row) (st : ScanState).

(** X21: when the loop completes, a type is listed in [entriesByType]
    exactly when it is not [__proto__], some counted row outside the
    composer data has it, and the values of these rows total at least
    104858 bytes (0.1 MB); a listed type has the number of these rows as
    its count, their total as its size and the keys of the first three of
    them as its samples; a type that is not listed is in none of the
    three dictionaries. *)
Theorem retained_types_meet_the_threshold rows keyType :
  scannable rows = true →
  let stats := analyze_entries rows in
  let ms := members keyType rows in
  (is_Some (entriesByType stats !! keyType)
   ↔ keyType ≠ "__proto__" ∧ ms ≠ [] ∧ (104858 ≤ sum_bytes ms)%N)
  ∧ (is_Some (entriesByType stats !! keyType) →
     entriesByType stats !! keyType = Some (Num (N.of_nat (length ms)))
     ∧ entriesSizeByType stats !! keyType = Some (Num (sum_bytes ms))
     ∧ sampleKeys stats !! keyType = Some (take 3 (map key ms))
     ∧ (1 ≤ length (take 3 (map key ms)) ≤ 3)%nat)
  ∧ (entriesByType stats !! keyType = None →
     entriesSizeByType stats !! keyType = None ∧ sampleKeys stats !! keyType = None).
Proof.
  intros Hok stats ms.
  pose proof (buckets_of_a_complete_scan rows keyType Hok) as Hb.
  cbv zeta in Hb. fold stats in Hb. fold ms in Hb.
  pose proof (at_least_MIN_SIZE_MB_Num (sum_bytes ms)) as Hmin.
  change (2 ^ 20)%N with 1048576%N in Hmin.
  destruct (String.eqb_spec keyType "__proto__") as [Hp | Hp]; cbn [negb andb] in Hb.
  { destruct Hb as (H1 & H2 & H3). rewrite H1, H2, H3.
    split_and!; [| by intros [? [=]] | done].
    split; [by intros [? [=]] | by intros (? & _)]. }
  case_bool_decide as Hms; cbn [negb andb] in Hb.
  { destruct Hb as (H1 & H2 & H3). rewrite H1, H2, H3.
    split_and!; [| by intros [? [=]] | done].
    split; [by intros [? [=]] | by intros (_ & ? & _)]. }
  destruct (at_least_MIN_SIZE_MB (Num (sum_bytes ms))) eqn:Hsize.
  - destruct Hb as (H1 & H2 & H3). rewrite H1, H2, H3.
    pose proof (proj1 Hmin eq_refl) as Hge. split_and!.
    + split; [intros _; split_and!; [done | done | lia] | by eexists].
    + intros _. split_and!; try done.
      * rewrite length_take, length_map. destruct ms; [done | simpl; lia].
      * rewrite length_take. lia.
    + done.
  - destruct Hb as (H1 & H2 & H3). rewrite H1, H2, H3.
    split_and!; [| by intros [? [=]] | done].
    split; [by intros [? [=]] |]. intros (_ & _ & Hle).
    assert (false = true) as Habs by (apply Hmin; lia). discriminate Habs.
Qed.

(** Once thrown, the loop sees no further row. *)
Lemma scan_thrown rows st st' :
  scan rows st = Thrown st' → ∀ more, scan (rows ++ more)%list st = Thrown st'.
Proof.
  intros Hscan more. by rewrite scan_app, Hscan.
Qed.

(** The state the loop throws with: the row is counted and sized, and
    the samples are not touched. *)
Lemma visit_trips_state total rows stats all r :
  scanned total rows (stats, all) → scannable rows = true → trips r = true →
  ∃ byType sizeByType,
    visit (stats, all) r
    = Thrown (mkStats (totalEntries stats) (composerEntries stats)
                (otherEntries stats + 1) (totalSizeMB stats + bytes_of r)
                (composerDataSizeMB stats) (otherDataSizeMB stats + bytes_of r)
                byType sizeByType (largestEntries stats) (sampleKeys stats),
              (all ++ [sized r])%list).
Proof.
  intros Hst Hok Htrip. unfold trips in Htrip.
  apply andb_prop in Htrip as [[Hc Hcomposer]%andb_prop Hfn].
  apply negb_true_iff in Hcomposer. unfold is_composer in Hcomposer.
  destruct (counted_value r Hc) as (v & Hv & Ht).
  unfold visit, sized, bytes_of. rewrite Hv, Ht, Hcomposer. cbn [negb default].
  pose proof (sc_samples _ _ _ Hst (coarse_type (key r))) as Hsam. simpl in Hsam.
  rewrite (no_members_of_a_function_type rows _ Hok Hfn), bucket_nil in Hsam.
  unfold names_prototype_function in Hfn.
  destruct (assoc (coarse_type (key r)) Object_prototype_functions) as [arity |] eqn:Harity;
    [| done].
  destruct (prototype_function_arity _ _ Harity) as [Hlt Hne].
  assert (js_get (sampleKeys stats) (coarse_type (key r))
          = Inherited (coarse_type (key r)) arity) as Hget.
  { unfold js_get. rewrite (proj2 (String.eqb_neq _ _) Hne), Hsam, Harity. done. }
  rewrite Hget, Hget, Hlt. by eexists _, _.
Qed.

(** X22: when a row trips the loop, the statistics are those of the
    table cut after that row, with [totalEntries] the number of all rows:
    the rows behind it are not counted; [largestEntries] is empty, the
    tripping row is counted in [otherEntries] and [totalSizeMB], and the
    samples are those of the rows before it, whatever their size. *)
Theorem rows_after_a_throw_are_not_seen before r after :
  scannable before = true → trips r = true →
  let rows := (before ++ r :: after)%list in
  let stats := analyze_entries rows in
  stats = with_totalEntries (N.of_nat (length rows)) (analyze_entries (before ++ [r]))
  ∧ largestEntries stats = []
  ∧ composerEntries stats = N.of_nat (length (composer_rows before))
  ∧ otherEntries stats = (N.of_nat (length (other_rows before)) + 1)%N
  ∧ totalSizeMB stats = (sum_bytes (List.filter counted before) + bytes_of r)%N
  ∧ ∀ keyType,
      sampleKeys stats !! keyType
      = bucket keyType (members keyType before)
          (take 3 (map key (members keyType before))).
Proof.
  intros Hok Htrip rows stats.
  destruct (scan_scanned (N.of_nat (length rows)) before Hok) as ([s1 a1] & Hscan1 & Hst1).
  destruct (visit_trips_state _ before s1 a1 r Hst1 Hok Htrip) as (bt & sbt & Hvisit).
  assert (∀ more, scan (before ++ r :: more)%list
                    (mkStats (N.of_nat (length rows)) 0 0 0 0 0 ∅ ∅ [] ∅, [])
                  = Thrown (mkStats (totalEntries s1) (composerEntries s1)
                              (otherEntries s1 + 1) (totalSizeMB s1 + bytes_of r)
                              (composerDataSizeMB s1) (otherDataSizeMB s1 + bytes_of r)
                              bt sbt (largestEntries s1) (sampleKeys s1),
                            (a1 ++ [sized r])%list)) as Hthrown.
  { intros more. rewrite scan_app, Hscan1. cbn [scan]. by rewrite Hvisit. }
  assert (Hstats : stats
                   = mkStats (totalEntries s1) (composerEntries s1)
                       (otherEntries s1 + 1) (totalSizeMB s1 + bytes_of r)
                       (composerDataSizeMB s1) (otherDataSizeMB s1 + bytes_of r)
                       bt sbt (largestEntries s1) (sampleKeys s1)).
  { subst stats rows. unfold analyze_entries. by rewrite Hthrown. }
  pose proof (sc_total _ _ _ Hst1) as Htotal.
  pose proof (sc_largest _ _ _ Hst1) as Hlargest.
  pose proof (sc_composer _ _ _ Hst1) as Hcomposer.
  pose proof (sc_other _ _ _ Hst1) as Hother.
  pose proof (sc_size _ _ _ Hst1) as Hsize.
  pose proof (sc_samples _ _ _ Hst1) as Hsamples.
  simpl in Htotal, Hlargest, Hcomposer, Hother, Hsize, Hsamples.
  split_and!.
  - rewrite Hstats. unfold analyze_entries.
    change (mkStats (N.of_nat (length (before ++ [r])%list)) 0 0 0 0 0 ∅ ∅ [] ∅)
      with (with_totalEntries (N.of_nat (length (before ++ [r])%list))
              (mkStats (N.of_nat (length rows)) 0 0 0 0 0 ∅ ∅ [] ∅)).
    rewrite scan_with_total, (Hthrown []). unfold with_totalEntries. simpl.
    by rewrite Htotal.
  - by rewrite Hstats.
  - by rewrite Hstats.
  - rewrite Hstats. simpl. by rewrite Hother.
  - rewrite Hstats. simpl. by rewrite Hsize.
  - intros keyType. rewrite Hstats. simpl. apply Hsamples.
Qed.
End Buckets.

(** ** The ten largest entries *)

Section TopTen.
Implicit Types (r : Row) (rows : list Row).

(** A descending list, cut anywhere: no entry behind the cut is larger
    than one before it. *)
Lemma descending_split (l : list SizedEntry) n :
  descending l →
  ∀ e e', e ∈ take n l → e' ∈ drop n l → (se_sizeMB e' ≤ se_sizeMB e)%N.
Proof.
  unfold descending. revert n. induction l as [| x rest IH]; intros n Hl e e' He He'.
  - by rewrite take_nil in He; apply elem_of_nil in He.
  - apply StronglySorted_inv in Hl as [Hrest Hx].
    destruct n as [| n]; [by apply elem_of_nil in He |].
    cbn [take drop] in He, He'. apply elem_of_cons in He as [-> | He].
    + rewrite List.Forall_forall in Hx. apply Hx, list_elem_of_In.
      rewrite <- (take_drop n rest). apply elem_of_app. by right.
    + by apply (IH n).
Qed.

(** X3: when the loop completes, [largestEntries] holds
    min(10, number of counted rows) entries, taken from the counted rows,
    and no counted row left out is larger than one that is kept. *)
Theorem largestEntries_are_the_largest rows :
  scannable rows = true →
  let candidates := map sized (List.filter counted rows) in
  ∃ kept rest,
    Permutation candidates (kept ++ rest)%list
    ∧ largestEntries (analyze_entries rows) = map to_largest kept
    ∧ length kept = (length candidates `min` 10)%nat
    ∧ ∀ e e', e ∈ kept → e' ∈ rest → (se_sizeMB e' ≤ se_sizeMB e)%N.
Proof.
  intros Hok candidates.
  destruct (analyze_entries_scannable rows Hok) as (st & Hst & Heq).
  exists (take 10 (sort_desc candidates)), (drop 10 (sort_desc candidates)).
  split_and!.
  - rewrite take_drop. symmetry. apply sort_desc_Permutation.
  - rewrite Heq. simpl. by rewrite (sc_all _ _ _ Hst).
  - rewrite length_take, sort_desc_length. lia.
  - apply descending_split, sort_desc_descending.
Qed.
End TopTen.

(** ** The type of a key *)

Section CoarseType.

(** The text before the first colon has no colon. *)
Lemma split_colon_head_colon_free (k : string) :
  colon_free (Js.split_colon_head k) = true.
Proof.
  induction k as [| c rest IH]; [done |]. simpl.
  destruct (Ascii.eqb c ":") eqn:Hc; [done |]. simpl. by rewrite Hc.
Qed.

(** [split(':')[0]] of a colon-free text followed by a colon. *)
Lemma split_colon_head_app (p rest : string) :
  colon_free p = true →
  Js.split_colon_head (p +:+ String ":" rest) = p.
Proof.
  induction p as [| c p IH]; simpl; [done |].
  intros [Hc Hp]%andb_prop. apply negb_true_iff in Hc. rewrite Hc.
  f_equal. by apply IH.
Qed.

(** [split(':')[0]] of a colon-free text is the text. *)
Lemma split_colon_head_id (k : string) :
  colon_free k = true → Js.split_colon_head k = k.
Proof.
  induction k as [| c k IH]; simpl; [done |].
  intros [Hc Hp]%andb_prop. apply negb_true_iff in Hc. rewrite Hc.
  f_equal. by apply IH.
Qed.

(** X4: the type [key.split(':')[0] || 'unknown'] of a key is never empty
    and holds no colon; it is the text before the first colon when that
    text is not empty, the whole key when the key has no colon and is
    not empty, and [unknown] for the empty key and for a key that starts
    with a colon. *)
Theorem coarse_type_shape (k : string) :
  coarse_type k ≠ ""
  ∧ colon_free (coarse_type k) = true
  ∧ (∀ p rest, k = p +:+ String ":" rest → colon_free p = true → p ≠ "" →
       coarse_type k = p)
  ∧ (colon_free k = true → k ≠ "" → coarse_type k = k)
  ∧ (∀ rest, k = String ":" rest → coarse_type k = "unknown")
  ∧ (k = "" → coarse_type k = "unknown").
Proof.
  unfold coarse_type. split_and!.
  - destruct (String.eqb_spec (Js.split_colon_head k) ""); done.
  - destruct (String.eqb_spec (Js.split_colon_head k) ""); [done |].
    apply split_colon_head_colon_free.
  - intros p rest -> Hp Hne. rewrite split_colon_head_app by done.
    by rewrite (proj2 (String.eqb_neq _ _) Hne).
  - intros Hk Hne. rewrite split_colon_head_id by done.
    by rewrite (proj2 (String.eqb_neq _ _) Hne).
  - by intros rest ->.
  - by intros ->.
Qed.
End CoarseType.

(** ** The classifier and the analyzer's buckets *)

Section ClassifierAndBuckets.

(** A text that starts with [p] is [p] followed by a rest. *)
Lemma startsWith_app (k p : string) :
  Js.startsWith k p = true → ∃ rest, k = p +:+ rest.
Proof.
  unfold Js.startsWith. revert k. induction p as [| a p IH]; intros k.
  - intros _. by exists k.
  - destruct k as [| b k]; simpl; [done |].
    destruct (Ascii.ascii_dec a b) as [-> | _]; [| done].
    intros [rest ->]%IH. by exists rest.
Qed.

Ltac finish :=
  repeat split; intros Hx;
  first [ reflexivity | simpl in Hx; discriminate Hx ].

(** X5: the page's classifier agrees with the analyzer's split: a key is
    classified as composer data exactly when the analyzer counts it under
    [composerEntries]; the category of a key with one of the five
    prefixes names its type, and a key classified by one of the two exact
    keys is its own type. *)
Theorem category_determines_bucket (k : string) :
  (formatDataType k = ComposerData ↔ Js.startsWith k "composerData:" = true)
  ∧ (formatDataType k = ChatMessage → coarse_type k = "bubbleId")
  ∧ (formatDataType k = Checkpoint → coarse_type k = "checkpointId")
  ∧ (formatDataType k = CodeDiff → coarse_type k = "codeBlockDiff")
  ∧ (formatDataType k = MessageContext → coarse_type k = "messageRequestContext")
  ∧ (formatDataType k = ComposerData → coarse_type k = "composerData")
  ∧ (formatDataType k = ChatData → coarse_type k = k)
  ∧ (formatDataType k = ComposerMetadata → coarse_type k = k).
Proof.
  destruct (Js.startsWith k "bubbleId:") eqn:H1.
  { apply startsWith_app in H1 as [[| c rest] ->]; finish. }
  destruct (Js.startsWith k "checkpointId:") eqn:H2.
  { apply startsWith_app in H2 as [[| c rest] ->]; finish. }
  destruct (Js.startsWith k "codeBlockDiff:") eqn:H3.
  { apply startsWith_app in H3 as [[| c rest] ->]; finish. }
  destruct (Js.startsWith k "messageRequestContext:") eqn:H4.
  { apply startsWith_app in H4 as [[| c rest] ->]; finish. }
  destruct (Js.startsWith k "composerData:") eqn:H5.
  { apply startsWith_app in H5 as [[| c rest] ->]; finish. }
  unfold formatDataType. rewrite H1, H2, H3, H4, H5.
  destruct (String.eqb_spec k "workbench.panel.aichat.view.aichat.chatdata") as [-> | _];
    [finish |].
  destruct (String.eqb_spec k "composer.composerData") as [-> | _];
    finish.
Qed.
End ClassifierAndBuckets.

(** ** The aggregation of the workspace records *)

Section Aggregator.
Implicit Types (details : list WorkspaceStats) (global : GlobalDatabaseStats).

(** A count splits along a second test. *)
Lemma count_where_split (p q : WorkspaceStats → bool) details :
  count_where p details
  = (count_where (λ x, p x && q x) details
     + count_where (λ x, p x && negb (q x)) details)%N.
Proof.
  unfold count_where. induction details as [| x rest IH]; [done |].
  cbn [List.filter]. destruct (p x), (q x); cbn [andb negb length]; lia.
Qed.

(** Tests that agree count the same. *)
Lemma count_where_ext (p q : WorkspaceStats → bool) details :
  (∀ x, p x = q x) → count_where p details = count_where q details.
Proof.
  intros Hpq. unfold count_where. induction details as [| x rest IH]; [done |].
  cbn [List.filter]. rewrite Hpq. destruct (q x); cbn [length]; lia.
Qed.

(** The test that always holds counts the list. *)
Lemma count_where_all details :
  count_where (λ _, true) details = N.of_nat (length details).
Proof.
  unfold count_where. induction details as [| x rest IH]; [done |].
  cbn [List.filter length]. lia.
Qed.

(** X6: the four exclusive counters of the aggregation (both, only
    chats, only composers, neither) add up to [totalWorkspaces];
    [workspacesWithChats] is both plus only chats,
    [workspacesWithComposers] is both plus only composers, and neither
    exceeds [totalWorkspaces]. *)
Theorem statistics_partition details global :
  let s := summarize details global in
  (workspacesWithBoth s + workspacesWithOnlyChats s
   + workspacesWithOnlyComposers s + workspacesWithNeither s)%N = totalWorkspaces s
  ∧ workspacesWithChats s = (workspacesWithBoth s + workspacesWithOnlyChats s)%N
  ∧ workspacesWithComposers s = (workspacesWithBoth s + workspacesWithOnlyComposers s)%N
  ∧ (workspacesWithChats s ≤ totalWorkspaces s)%N
  ∧ (workspacesWithComposers s ≤ totalWorkspaces s)%N.
Proof.
  cbn zeta. unfold summarize. cbn.
  pose proof (count_where_all details) as Hall.
  pose proof (count_where_split (λ _, true) hasChats details) as H1.
  pose proof (count_where_split hasChats hasComposers details) as H2.
  pose proof (count_where_split (λ x, negb (hasChats x)) hasComposers details) as H3.
  pose proof (count_where_split hasComposers hasChats details) as H4.
  rewrite (count_where_ext (λ x, true && hasChats x) hasChats) in H1 by done.
  rewrite (count_where_ext (λ x, true && negb (hasChats x)) (λ x, negb (hasChats x)))
    in H1 by done.
  rewrite (count_where_ext (λ x, hasComposers x && hasChats x)
             (λ x, hasChats x && hasComposers x)) in H4
    by (intros; apply andb_comm).
  rewrite (count_where_ext (λ x, hasComposers x && negb (hasChats x))
             (λ x, negb (hasChats x) && hasComposers x)) in H4
    by (intros; apply andb_comm).
  cbv beta in *. lia.
Qed.
End Aggregator.

(** ** The totals of the aggregation *)

Section Totals.
Implicit Types (details : list WorkspaceStats) (global : GlobalDatabaseStats).

(** The sum from a start value. *)
Lemma sum_of_from (f : WorkspaceStats → N) details (a : N) :
  fold_left (λ sum x, (sum + f x)%N) details a = (a + sum_of f details)%N.
Proof.
  unfold sum_of. revert a. induction details as [| x rest IH]; intros a; cbn [fold_left].
  - lia.
  - rewrite (IH (a + f x)%N), (IH (0 + f x)%N). lia.
Qed.

(** The sum of a list with a head. *)
Lemma sum_of_cons (f : WorkspaceStats → N) x details :
  sum_of f (x :: details) = (f x + sum_of f details)%N.
Proof. unfold sum_of at 1. cbn [fold_left]. rewrite sum_of_from. lia. Qed.

(** The sum of a sum. *)
Lemma sum_of_add (f g : WorkspaceStats → N) details :
  sum_of (λ x, (f x + g x)%N) details = (sum_of f details + sum_of g details)%N.
Proof.
  induction details as [| x rest IH]; [done |].
  rewrite !sum_of_cons, IH. lia.
Qed.

(** Measures that agree on the list sum the same. *)
Lemma sum_of_ext (f g : WorkspaceStats → N) details :
  Forall (λ x, f x = g x) details → sum_of f details = sum_of g details.
Proof.
  induction 1 as [| x rest Hx Hall IH]; [done |].
  by rewrite !sum_of_cons, IH, Hx.
Qed.

(** Records that measure 0 can be left out of a sum. *)
Lemma sum_of_filter (f : WorkspaceStats → N) (p : WorkspaceStats → bool) details :
  Forall (λ x, p x = false → f x = 0%N) details →
  sum_of f (List.filter p details) = sum_of f details.
Proof.
  induction 1 as [| x rest Hx Hall IH]; [done |].
  cbn [List.filter]. destruct (p x) eqn:Hp.
  - by rewrite !sum_of_cons, IH.
  - rewrite sum_of_cons, IH, (Hx eq_refl). lia.
Qed.

(** X23: on the records of the scanner the workspaces with neither chats
    nor composers add nothing to [totalChats], [totalComposers] and
    [totalWorkspaceDataSizeMB]: the aggregation of the other records has
    the same three totals and [workspacesWithNeither] fewer workspaces;
    the total size is the sum of the chat sizes plus the sum of the
    composer sizes. *)
Theorem totals_ignore_empty_workspaces details global :
  Forall record_sound details →
  let kept := List.filter (λ x, hasChats x || hasComposers x) details in
  totalChats (summarize kept global) = totalChats (summarize details global)
  ∧ totalComposers (summarize kept global) = totalComposers (summarize details global)
  ∧ totalWorkspaceDataSizeMB (summarize kept global)
    = totalWorkspaceDataSizeMB (summarize details global)
  ∧ totalWorkspaceDataSizeMB (summarize details global)
    = (sum_of chatDataSizeMB details + sum_of ws_composerDataSizeMB details)%N
  ∧ (totalWorkspaces (summarize kept global)
     + workspacesWithNeither (summarize details global))%N
    = totalWorkspaces (summarize details global).
Proof.
  intros Hsound kept. cbn [summarize totalChats totalComposers totalWorkspaceDataSizeMB
                             totalWorkspaces workspacesWithNeither].
  assert (Hempty : Forall (λ x, hasChats x || hasComposers x = false →
                                chatCount x = 0%N ∧ composerCount x = 0%N
                                ∧ ws_totalSizeMB x = 0%N) details).
  { eapply Forall_impl; [exact Hsound |]. intros x (Ht & Hc & Hk) Hx.
    apply orb_false_elim in Hx as [Hc' Hk'].
    destruct (Hc Hc') as [-> Hcs], (Hk Hk') as [-> Hks]. rewrite Ht, Hcs, Hks. done. }
  split_and!.
  - apply sum_of_filter. eapply Forall_impl; [exact Hempty |]. intros x Hx Hp.
    by destruct (Hx Hp).
  - apply sum_of_filter. eapply Forall_impl; [exact Hempty |]. intros x Hx Hp.
    by destruct (Hx Hp) as (_ & ? & _).
  - apply sum_of_filter. eapply Forall_impl; [exact Hempty |]. intros x Hx Hp.
    by destruct (Hx Hp) as (_ & _ & ?).
  - rewrite <- sum_of_add. apply sum_of_ext.
    eapply Forall_impl; [exact Hsound |]. by intros x (Ht & _).
  - unfold count_where, kept. clear.
    induction details as [| x rest IH]; [done |].
    cbn [List.filter]. destruct (hasChats x), (hasComposers x); cbn [orb negb andb length];
      lia.
Qed.
End Totals.

(** ** The records of the scanner *)

Section Scanner.
Context `{Runtime} (w : World).
Implicit Types (io : Io) (details : list WorkspaceStats) (entry : Dirent).

(** The count and the size of one item: both are 0 when the item has no
    value, and the size is 0 or the byte length of the value. *)
Lemma count_and_size_sound (member : string) (result : option Row) :
  ∃ count bytes,
    (∀ io, count_and_size member result io = (Ok (count, bytes), io))
    ∧ (has_value result = false → count = 0%N ∧ bytes = 0%N)
    ∧ (bytes = 0%N
       ∨ ∃ row v, result = Some row ∧ value row = Some v ∧ bytes = Js.byteLength v).
Proof.
  unfold count_and_size.
  destruct (has_value result) eqn:Hhas;
    [| exists 0%N, 0%N; split_and!; [reflexivity | done | by left]].
  destruct result as [[k [v |]] |];
    try (exists 0%N, 0%N; split_and!; [reflexivity | done | by left]).
  unfold try_catch, mbind, M_bind, lift, mret, M_ret, throw.
  destruct (JSON_parse v) as [data |]; simpl;
    [| exists 0%N, 0%N; split_and!; [reflexivity | done | by left]].
  destruct (member_length member data) as [n |]; simpl;
    [| exists 0%N, 0%N; split_and!; [reflexivity | done | by left]].
  exists n, (calculateDataSizeMB (Some v)). split_and!; [reflexivity | done |].
  right. exists (mkRow k (Some v)), v. split_and!; [done | done |].
  unfold calculateDataSizeMB. change (Js.truthy (Some v) = true) in Hhas.
  by rewrite Hhas.
Qed.

(** A directory entry leaves the list as it is or appends one record:
    the record of a directory whose database file exists and opens, under
    the directory's name. *)
Lemma visit_dirent_result (workspacePath : string) details entry io :
  (∃ io', visit_dirent w workspacePath details entry io = (Ok details, io'))
  ∨ (∃ record io',
       visit_dirent w workspacePath details entry io
       = (Ok (details ++ [record])%list, io')
       ∧ ws_id record = d_name entry
       ∧ d_isDirectory entry = true
       ∧ existsSync w (path_join [workspacePath; d_name entry; "state.vscdb"]) = true
       ∧ db_open_ok (database w (path_join [workspacePath; d_name entry; "state.vscdb"]))
         = true
       ∧ record_sound record).
Proof.
  unfold visit_dirent.
  destruct (d_isDirectory entry); [| left; by eexists].
  destruct (existsSync w _) eqn:Hex; cbn [negb]; [| left; by eexists].
  rewrite try_bind.
  destruct (read_workspace_folder_runs w
              (path_join [workspacePath; d_name entry; "workspace.json"])) as (f & ->).
  rewrite try_bind.
  destruct (db_open_ok (database w (path_join [workspacePath; d_name entry; "state.vscdb"])))
    eqn:Hopen; [rewrite sqlite_open_ok by done | rewrite sqlite_open_fails by done; left; by eexists].
  rewrite try_bind.
  destruct (db_get w _ _ _ _) as [[chat | e] io2]; [| left; by eexists].
  rewrite try_bind.
  destruct (count_and_size_sound "tabs" chat) as (c1 & s1 & -> & Hc1 & _).
  rewrite try_bind.
  destruct (db_get w _ _ _ io2) as [[comp | e] io3]; [| left; by eexists].
  rewrite try_bind.
  destruct (count_and_size_sound "allComposers" comp) as (c2 & s2 & -> & Hc2 & _).
  rewrite try_bind.
  destruct (db_close w _ io3) as [[[] | e] io4]; [| left; by eexists].
  right. eexists _, _. split; [reflexivity |]. split_and!; done.
Qed.

(** X7: the scan of the workspace directory always completes; its
    records are, in the order of the listing, records of some of the
    listed directories; in every record [totalSizeMB] is
    [chatDataSizeMB + composerDataSizeMB], and a record without chats
    (without composers) has chat (composer) count 0 and size 0. *)
Theorem scanner_records_are_sound (workspacePath : string) entries io :
  ∃ records io',
    visit_dirents w workspacePath [] entries io = (Ok records, io')
    ∧ Forall record_sound records
    ∧ map ws_id records `sublist_of` map d_name (List.filter d_isDirectory entries)
    ∧ (length records ≤ length (List.filter d_isDirectory entries))%nat.
Proof.
  assert (∀ details io,
            ∃ more io',
              visit_dirents w workspacePath details entries io
              = (Ok (details ++ more)%list, io')
              ∧ Forall record_sound more
              ∧ map ws_id more `sublist_of` map d_name (List.filter d_isDirectory entries))
    as Hgen.
  { induction entries as [| entry rest IH]; intros details io1.
    - exists [], io1. rewrite app_nil_r. by repeat split.
    - cbn [visit_dirents]. rewrite run_bind.
      destruct (visit_dirent_result workspacePath details entry io1)
        as [(io2 & ->) | (record & io2 & -> & Hid & Hdir & _ & _ & Hsound)].
      + destruct (IH details io2) as (more & io3 & -> & Hmore & Hsub).
        exists more, io3. split_and!; [done | done |].
        cbn [List.filter]. destruct (d_isDirectory entry); [| done].
        cbn [map]. by apply sublist_cons.
      + destruct (IH (details ++ [record])%list io2) as (more & io3 & -> & Hmore & Hsub).
        exists (record :: more), io3. split_and!.
        * by rewrite <- app_assoc.
        * by constructor.
        * cbn [List.filter]. rewrite Hdir. cbn [map]. rewrite Hid. by apply sublist_skip. }
  destruct (Hgen [] io) as (records & io' & Hrun & Hsound & Hsub).
  exists records, io'. split_and!; try done.
  apply sublist_length in Hsub. by rewrite !length_map in Hsub.
Qed.
End Scanner.

(** ** The statistics route *)

Section MoreRequests.
Context `{Runtime} (w : World).
Implicit Types (io : Io) (details : list WorkspaceStats) (entry : Dirent).

(** The analyzer never throws. *)
Lemma analyzer_runs (workspacePath : string) io :
  ∃ stats io', analyzeGlobalDatabase w workspacePath io = (Ok stats, io').
Proof.
  unfold analyzeGlobalDatabase.
  destruct (existsSync w _); cbn [negb]; [| by eexists _, _].
  rewrite run_try.
  match goal with
  | |- context [match ?m io with _ => _ end] => destruct (m io) as [[stats | e] io']
  end; by eexists _, _.
Qed.

(** X8: a workspace whose chat item holds a well-formed document gets a
    record with [hasChats], the length of [tabs] as [chatCount] and the
    byte length of the item as [chatDataSizeMB]; when the document has no
    [tabs] with a length, count and size are both 0
    ([chatData.tabs.length] throws on a missing [tabs]; [?.] does not,
    and then [|| 0] applies and the size is computed). *)
Theorem wellformed_chat_data_is_counted
    (workspacePath : string) details entry rows (row : Row) v data n io :
  let dbPath := path_join [workspacePath; d_name entry; "state.vscdb"] in
  d_isDirectory entry = true →
  existsSync w dbPath = true →
  db_open_ok (database w dbPath) = true →
  db_tables (database w dbPath) !! "ItemTable" = Some rows →
  db_close_ok (database w dbPath) = true →
  List.find (λ r, String.eqb (key r) chat_key) rows = Some row →
  value row = Some v → v ≠ "" →
  JSON_parse v = Some data →
  (member_length "tabs" data = Some n →
   ∃ record io',
     visit_dirent w workspacePath details entry io = (Ok (details ++ [record])%list, io')
     ∧ hasChats record = true ∧ chatCount record = n
     ∧ chatDataSizeMB record = Js.byteLength v)
  ∧ (member_length "tabs" data = None →
     ∃ record io',
       visit_dirent w workspacePath details entry io = (Ok (details ++ [record])%list, io')
       ∧ hasChats record = true ∧ chatCount record = 0%N
       ∧ chatDataSizeMB record = 0%N).
Proof.
  intros dbPath Hdir Hex Hopen Htable Hclose Hfind Hv Hne Hparse.
  destruct (visit_dirent_served w workspacePath details entry rows io)
    as (f & c1 & s1 & c2 & s2 & Hrun & Hchat & _); try done.
  cbv zeta in Hchat. rewrite Hfind in Hrun, Hchat.
  assert (has_value (Some row) = true) as Hhas.
  { unfold has_value, Js.truthy. rewrite Hv. by rewrite (proj2 (String.eqb_neq _ _) Hne). }
  specialize (Hchat io). unfold count_and_size in Hchat. rewrite Hhas in Hchat.
  destruct row as [k val]. simpl in Hv. subst val.
  unfold try_catch, mbind, M_bind, lift, mret, M_ret, throw in Hchat.
  rewrite Hparse in Hchat. simpl in Hchat.
  split; intros Hlen; rewrite Hlen in Hchat; simpl in Hchat;
    injection Hchat as <- <-; eexists _, _; (split; [exact Hrun |]); simpl;
    split_and!; try done.
  unfold calculateDataSizeMB. change (Js.truthy (Some v) = true) in Hhas. by rewrite Hhas.
Qed.

(** X9: an entry that is no directory, or has no [state.vscdb], is
    passed over without any database call; a directory whose database
    does not open is passed over; one whose database has no [ItemTable]
    is passed over with the connection left open. *)
Theorem unusable_workspace_is_skipped (workspacePath : string) details entry io :
  let dbPath := path_join [workspacePath; d_name entry; "state.vscdb"] in
  (d_isDirectory entry = false ∨ existsSync w dbPath = false →
   visit_dirent w workspacePath details entry io = (Ok details, io))
  ∧ (d_isDirectory entry = true → existsSync w dbPath = true →
     db_open_ok (database w dbPath) = false →
     visit_dirent w workspacePath details entry io = (Ok details, io))
  ∧ (d_isDirectory entry = true → existsSync w dbPath = true →
     db_open_ok (database w dbPath) = true →
     db_tables (database w dbPath) !! "ItemTable" = None →
     visit_dirent w workspacePath details entry io
     = (Ok details,
        mkIo (dbPath :: open_handles io)
          (events io ++ [Opened dbPath; QueriedOne dbPath "ItemTable" chat_key])%list)).
Proof.
  intros dbPath. unfold visit_dirent. fold dbPath. split_and!.
  - intros [-> | Hex]; [done |]. rewrite Hex. by destruct (d_isDirectory entry).
  - intros -> -> Hopen. cbn [negb]. rewrite try_bind.
    destruct (read_workspace_folder_runs w
                (path_join [workspacePath; d_name entry; "workspace.json"])) as (f & ->).
    by rewrite try_bind, sqlite_open_fails.
  - intros -> -> Hopen Htable. cbn [negb]. rewrite try_bind.
    destruct (read_workspace_folder_runs w
                (path_join [workspacePath; d_name entry; "workspace.json"])) as (f & ->).
    rewrite try_bind, sqlite_open_ok by done.
    rewrite try_bind, db_get_fails by done.
    unfold record_event. cbn. by rewrite <- app_assoc.
Qed.

(** X10: the statistics route answers 400 when no workspace path is
    configured, 500 when the workspace directory cannot be listed, and
    otherwise 200 with the aggregation of the scanner's records and the
    analyzer's statistics. *)
Theorem statistics_status io :
  let workspacePath := default "" (WORKSPACE_PATH w) in
  (workspacePath = "" →
   GET_statistics w io = (Ok (mkResponse 400 (ErrorBody not_configured)), io))
  ∧ (workspacePath ≠ "" → readdir w workspacePath = None →
     GET_statistics w io = (Ok (mkResponse 500 (ErrorBody "Failed to get statistics")), io))
  ∧ (workspacePath ≠ "" → ∀ entries, readdir w workspacePath = Some entries →
     ∃ records global io',
       GET_statistics w io
       = (Ok (mkResponse 200 (StatisticsBody (summarize records global))), io')
       ∧ (∃ io1, visit_dirents w workspacePath [] entries io = (Ok records, io1)
                 ∧ analyzeGlobalDatabase w workspacePath io1 = (Ok global, io'))).
Proof.
  intros workspacePath. unfold GET_statistics. fold workspacePath. split_and!.
  - intros ->. done.
  - intros Hne Hdir. rewrite (proj2 (String.eqb_neq _ _) Hne).
    rewrite try_bind. unfold fs_readdir. by rewrite Hdir.
  - intros Hne entries Hdir. rewrite (proj2 (String.eqb_neq _ _) Hne).
    rewrite try_bind. unfold fs_readdir. rewrite Hdir. cbn [lift].
    unfold mret at 1, M_ret at 1. rewrite try_bind.
    destruct (visit_dirents_extends w workspacePath entries [] io) as (records & io1 & Hscan).
    rewrite Hscan. rewrite try_bind.
    destruct (analyzer_runs workspacePath io1) as (global & io' & Hglobal).
    rewrite Hglobal. exists records, global, io'. split; [done |]. eauto.
Qed.
End MoreRequests.

(** ** The entry route *)

Section EntryMore.
Context `{Runtime} (w : World).
Implicit Types (io : Io) (request : EntryRequest).

(** The row a lookup by key finds has that key. *)
Lemma find_key_eq (rows : list Row) k (row : Row) :
  List.find (λ r, String.eqb (key r) k) rows = Some row → key row = k ∧ In row rows.
Proof.
  intros [Hin Heq]%List.find_some. split; [| done]. by apply String.eqb_eq.
Qed.

(** X11: the entry route answers a stored entry with status 200: the
    key, the raw value, the value parsed (the raw value when it is no
    JSON), the source as given, the byte length of the value and that
    length in MB with two decimals; it opens the database, reads once and
    closes it. *)
Theorem entry_found request io k workspacePath rows (row : Row) v :
  param_key request = Some k → k ≠ "" →
  WORKSPACE_PATH w = Some workspacePath → workspacePath ≠ "" →
  let source := param_source request in
  let dbPath := (locate workspacePath source).1 in
  let tableName := (locate workspacePath source).2 in
  existsSync w dbPath = true →
  db_open_ok (database w dbPath) = true →
  db_tables (database w dbPath) !! tableName = Some rows →
  db_close_ok (database w dbPath) = true →
  List.find (λ r, String.eqb (key r) k) rows = Some row →
  value row = Some v →
  GET_database_entry w request io
  = (Ok (mkResponse 200 (EntryBody
           (mkEntryView k (Some v)
              (match JSON_parse v with Some j => Parsed j | None => Raw (Some v) end)
              source (Js.byteLength v)
              (fixed2 (MB_hundredths (Js.byteLength v)) +:+ " MB")))),
     mkIo (open_handles io)
       (events io ++ [Opened dbPath; QueriedOne dbPath tableName k; Closed dbPath])%list).
Proof.
  intros Hk Hk' Hw Hw' source dbPath tableName Hex Hopen Htable Hclose Hfind Hv.
  destruct (find_key_eq rows k row Hfind) as [Hkey _].
  rewrite (GET_database_entry_located w _ k workspacePath) by done.
  cbv zeta. fold source. fold dbPath. fold tableName. rewrite Hex. cbn [negb].
  rewrite try_bind, sqlite_open_ok by done.
  rewrite try_bind. erewrite db_get_ok by done.
  rewrite try_bind, db_close_ok_run by done.
  unfold record_event. cbn [open_handles events]. rewrite remove_first_head.
  rewrite Hfind, Hv, Hkey. rewrite <- !app_assoc. reflexivity.
Qed.

(** X12: the entry route answers 400 when no workspace path is
    configured, and 500 when the database does not open or the statement
    fails. *)
Theorem entry_hard_failures request io :
  (∀ k, param_key request = Some k → k ≠ "" →
     default "" (WORKSPACE_PATH w) = "" →
     GET_database_entry w request io
     = (Ok (mkResponse 400 (ErrorBody not_configured)), io))
  ∧ (∀ k workspacePath,
       param_key request = Some k → k ≠ "" →
       WORKSPACE_PATH w = Some workspacePath → workspacePath ≠ "" →
       let dbPath := (locate workspacePath (param_source request)).1 in
       existsSync w dbPath = true →
       db_open_ok (database w dbPath) = false →
       GET_database_entry w request io
       = (Ok (mkResponse 500 (ErrorBody "Failed to get database entry")), io))
  ∧ (∀ k workspacePath,
       param_key request = Some k → k ≠ "" →
       WORKSPACE_PATH w = Some workspacePath → workspacePath ≠ "" →
       let dbPath := (locate workspacePath (param_source request)).1 in
       let tableName := (locate workspacePath (param_source request)).2 in
       existsSync w dbPath = true →
       db_open_ok (database w dbPath) = true →
       db_tables (database w dbPath) !! tableName = None →
       (GET_database_entry w request io).1
       = Ok (mkResponse 500 (ErrorBody "Failed to get database entry"))).
Proof.
  split_and!.
  - intros k Hk Hk' Hp. unfold GET_database_entry. rewrite run_try, Hk. simpl.
    by rewrite (proj2 (String.eqb_neq _ _) Hk'), Hp.
  - intros k workspacePath Hk Hk' Hw Hw' dbPath Hex Hopen.
    rewrite (GET_database_entry_located w _ k workspacePath) by done.
    cbv zeta. fold dbPath. rewrite Hex. cbn [negb].
    by rewrite try_bind, sqlite_open_fails.
  - intros k workspacePath Hk Hk' Hw Hw' dbPath tableName Hex Hopen Htable.
    by rewrite (entry_run_statement_throws w request k workspacePath io).
Qed.

(** X13: a request without key, without configured path, or for a
    database file that does not exist makes no database call. *)
Theorem entry_touches_no_database_early request io :
  (default "" (param_key request) = ""
   ∨ default "" (WORKSPACE_PATH w) = ""
   ∨ existsSync w
       (locate (default "" (WORKSPACE_PATH w)) (param_source request)).1 = false) →
  (GET_database_entry w request io).2 = io.
Proof.
  intros Hcase.
  destruct (String.eqb_spec (default "" (param_key request)) "") as [Hk | Hk].
  { by rewrite key_required. }
  destruct (param_key request) as [k |] eqn:Hkey; [simpl in Hk | done].
  destruct (String.eqb_spec (default "" (WORKSPACE_PATH w)) "") as [Hp | Hp].
  { unfold GET_database_entry. rewrite run_try, Hkey. simpl.
    by rewrite (proj2 (String.eqb_neq _ _) Hk), Hp. }
  destruct (WORKSPACE_PATH w) as [workspacePath |] eqn:Hpath; [simpl in Hp | done].
  destruct Hcase as [? | [? | Hex]]; [done | done |]. simpl in Hex.
  rewrite (GET_database_entry_located w _ k workspacePath) by done.
  cbv zeta. by rewrite Hex.
Qed.
End EntryMore.

(** ** What the pruner leaves alone *)

Section PrunerMore.
Context `{Runtime} (w : World).
Implicit Types (st : PruneState) (ids : list string) (fs : FileSystem).

(** A removal takes only paths within the removed directory. *)
Lemma fs_rm_only_within fs path fs' q :
  fs_rm fs path = inr fs' → q ∈ present fs → q ∉ present fs' →
  path_within path q = true.
Proof.
  unfold fs_rm. destruct (refused fs !! path); [done |].
  intros [= <-] Hin Hout. simpl in Hout. rewrite elem_of_filter in Hout.
  destruct (path_within path q); [done |]. by destruct Hout.
Qed.

(** The batch appends to the two lists sublists of the identifiers, and
    every path it takes lies within the directory of a removed
    identifier. *)
Lemma remove_workspaces_scope (workspacePath : string) ids st :
  let st' := remove_workspaces workspacePath ids st in
  (∃ more, removed st' = (removed st ++ more)%list ∧ more `sublist_of` ids)
  ∧ (∃ more, failures st' = (failures st ++ more)%list
             ∧ map re_workspaceId more `sublist_of` ids)
  ∧ (∀ q, q ∈ present (disk st) → q ∉ present (disk st') →
       ∃ id, id ∈ ids ∧ id ∈ removed st'
             ∧ path_within (path_join [workspacePath; id]) q = true).
Proof.
  revert st. induction ids as [| id rest IH]; intros st; cbn zeta.
  - simpl. split_and!;
      [exists []; split; [by rewrite app_nil_r | constructor]
      |exists []; split; [by rewrite app_nil_r | constructor] |].
    intros q Hin Hout. contradiction.
  - unfold remove_workspaces in *. cbn [fold_left].
    specialize (IH (remove_workspace workspacePath st id)). cbn zeta in IH.
    destruct IH as ((r2 & Hr2 & Hsub2) & (f2 & Hf2 & Hfsub2) & Hscope).
    destruct (remove_workspace_cases workspacePath st id)
      as [(Hout & Heq) | [(Hin & disk' & Hrm & Heq) | (Hin & msg & Hmsg & Heq)]];
      cbn zeta in Heq; rewrite Heq in Hr2, Hf2, Hscope |- *; simpl in Hr2, Hf2, Hscope.
    + split_and!.
      * exists r2. split; [done | by apply sublist_cons].
      * eexists (_ :: f2). rewrite Hf2, <- app_assoc. split; [done |].
        cbn [map]. by apply sublist_skip.
      * intros q Hq Hq'. destruct (Hscope q Hq Hq') as (i & Hi & Hrem & Hwithin).
        exists i. split_and!; [by right | done | done].
    + split_and!.
      * exists (id :: r2). rewrite Hr2, <- app_assoc. split; [done | by apply sublist_skip].
      * exists f2. split; [done | by apply sublist_cons].
      * intros q Hq Hq'.
        destruct (decide (q ∈ present disk')) as [Hstill | Hgone].
        -- destruct (Hscope q Hstill Hq') as (i & Hi & Hrem & Hwithin).
           exists i. split_and!; [by right | done | done].
        -- exists id. split_and!; [by left | |].
           ++ rewrite Hr2. apply elem_of_app. left. apply elem_of_app. right. by left.
           ++ by apply (fs_rm_only_within (disk st) _ disk' q).
    + split_and!.
      * exists r2. split; [done | by apply sublist_cons].
      * eexists (_ :: f2). rewrite Hf2, <- app_assoc. split; [done |].
        cbn [map]. by apply sublist_skip.
      * intros q Hq Hq'. destruct (Hscope q Hq Hq') as (i & Hi & Hrem & Hwithin).
        exists i. split_and!; [by right | done | done].
Qed.


(** After the batch every listed directory is gone or refused. *)
Lemma after_the_batch (workspacePath : string) ids st id :
  id ∈ ids →
  let final := remove_workspaces workspacePath ids st in
  path_join [workspacePath; id] ∉ present (disk final)
  ∨ is_Some (refused (disk final) !! path_join [workspacePath; id]).
Proof.
  revert st. induction ids as [| x rest IH]; intros st Hin; [by apply elem_of_nil in Hin |].
  cbn zeta. unfold remove_workspaces in *. cbn [fold_left].
  apply elem_of_cons in Hin as [-> | Hin]; [| by apply IH].
  destruct (remove_workspaces_progress workspacePath rest
              (remove_workspace workspacePath st x)) as (Hsub & Href & _).
  cbn zeta in Hsub, Href. unfold remove_workspaces in Hsub, Href.
  destruct (remove_workspace_cases workspacePath st x)
    as [(Hout & Heq) | [(Hpresent & disk' & Hrm & Heq) | (Hpresent & msg & Hmsg & Heq)]];
    cbn zeta in Heq; rewrite Heq in Hsub, Href |- *; simpl in Hsub, Href.
  - left. intros Hq. by apply Hout, Hsub.
  - left. apply fs_rm_removes in Hrm as (Hgone & _). intros Hq. by apply Hgone, Hsub.
  - right. rewrite Href, Hmsg. by eexists.
Qed.

(** A batch whose directories are all gone or refused changes nothing
    on the disk and removes nothing. *)
Lemma nothing_left_to_remove (workspacePath : string) ids st :
  (∀ id, id ∈ ids →
     path_join [workspacePath; id] ∉ present (disk st)
     ∨ is_Some (refused (disk st) !! path_join [workspacePath; id])) →
  disk (remove_workspaces workspacePath ids st) = disk st
  ∧ removed (remove_workspaces workspacePath ids st) = removed st.
Proof.
  revert st. induction ids as [| x rest IH]; intros st Hall; [done |].
  unfold remove_workspaces in *. cbn [fold_left].
  assert (disk (remove_workspace workspacePath st x) = disk st
          ∧ removed (remove_workspace workspacePath st x) = removed st) as [Hd Hr].
  { destruct (remove_workspace_cases workspacePath st x)
      as [(Hout & Heq) | [(Hpresent & disk' & Hrm & Heq) | (Hpresent & msg & Hmsg & Heq)]];
      cbn zeta in Heq; rewrite Heq; simpl; [done | | done].
    destruct (Hall x) as [Hout | [msg Hmsg]]; [by left | done |].
    unfold fs_rm in Hrm. by rewrite Hmsg in Hrm. }
  destruct (IH (remove_workspace workspacePath st x)) as [Hd' Hr'].
  { intros id Hin. rewrite Hd. apply Hall. by right. }
  split; congruence.
Qed.

(** X15: the same request sent a second time removes nothing: the disk
    stays as the first request left it, [removedWorkspaces] is empty and
    every identifier is reported in [errors]. *)
Theorem pruner_is_idempotent (workspacePath : string) ids fs :
  WORKSPACE_PATH w = Some workspacePath → workspacePath ≠ "" →
  ∃ r1 fs1 r2,
    DELETE w (IdList ids) fs = (mkResponse 200 (RemovalBody r1), fs1)
    ∧ DELETE w (IdList ids) fs1 = (mkResponse 200 (RemovalBody r2), fs1)
    ∧ removedWorkspaces r2 = []
    ∧ removedCount r2 = 0%N
    ∧ length (errors r2) = length ids.
Proof.
  intros Hw Hne.
  set (first := remove_workspaces workspacePath ids (mkPrune fs [] [])).
  set (second := remove_workspaces workspacePath ids (mkPrune (disk first) [] [])).
  destruct (nothing_left_to_remove workspacePath ids (mkPrune (disk first) [] []))
    as [Hdisk Hremoved].
  { intros id Hin. simpl. by apply after_the_batch. }
  fold second in Hdisk, Hremoved. simpl in Hdisk, Hremoved.
  destruct (remove_workspaces_progress workspacePath ids (mkPrune (disk first) [] []))
    as (_ & _ & _ & _ & Hlen & _).
  fold second in Hlen. simpl in Hlen. rewrite Hremoved in Hlen. simpl in Hlen.
  exists (report first), (disk first), (report second).
  unfold DELETE. rewrite Hw. simpl.
  rewrite (proj2 (String.eqb_neq _ _) Hne).
  fold first. fold second. rewrite Hdisk, Hremoved. simpl.
  split_and!; [done | done | done | done | lia].
Qed.
End PrunerMore.

(** ** The sizes the page prints *)

Section FormatSize.




End FormatSize.

(** ** The table of workspaces *)

Section TableOrder.
Context {A : Type} (f : A → N).

(** Insertion adds the element and nothing else. *)
Lemma insert_by_desc_Permutation x (l : list A) :
  Permutation (insert_by_desc f x l) (x :: l).
Proof.
  induction l as [| y rest IH]; simpl; [done |].
  destruct (f x <? f y)%N; [| done].
  rewrite IH. apply perm_swap.
Qed.

(** The sorted list holds the elements of the list. *)
Lemma sort_by_desc_Permutation (l : list A) : Permutation (sort_by_desc f l) l.
Proof.
  induction l as [| x rest IH]; simpl; [done |].
  rewrite insert_by_desc_Permutation. by constructor.
Qed.

(** Insertion keeps the list descending. *)
Lemma insert_by_desc_sorted x (l : list A) :
  StronglySorted (λ a b, (f b ≤ f a)%N) l →
  StronglySorted (λ a b, (f b ≤ f a)%N) (insert_by_desc f x l).
Proof.
  induction 1 as [| y rest Hsorted IH Hall]; simpl.
  - repeat constructor.
  - destruct (f x <? f y)%N eqn:Hlt.
    + constructor; [done |].
      rewrite insert_by_desc_Permutation. constructor; [| done].
      apply N.ltb_lt in Hlt. lia.
    + apply N.ltb_ge in Hlt. constructor; [by constructor |].
      constructor; [done |].
      eapply Forall_impl; [exact Hall |]. simpl. intros z Hz. lia.
Qed.

(** The sorted list is descending. *)
Lemma sort_by_desc_sorted (l : list A) :
  StronglySorted (λ a b, (f b ≤ f a)%N) (sort_by_desc f l).
Proof.
  induction l as [| x rest IH]; simpl; [constructor |].
  by apply insert_by_desc_sorted.
Qed.

(** Insertion puts the element behind none of its ties. *)
Lemma insert_by_desc_ties n x (l : list A) :
  List.filter (λ a, (f a =? n)%N) (insert_by_desc f x l)
  = List.filter (λ a, (f a =? n)%N) (x :: l).
Proof.
  induction l as [| y rest IH]; [done |].
  cbn [insert_by_desc]. destruct (f x <? f y)%N eqn:Hlt; [| done].
  apply N.ltb_lt in Hlt. cbn [List.filter] in *. rewrite IH.
  destruct (f x =? n)%N eqn:Hx, (f y =? n)%N eqn:Hy; try done.
  apply N.eqb_eq in Hx, Hy. lia.
Qed.

(** Elements of the same rank keep their order. *)
Lemma sort_by_desc_ties n (l : list A) :
  List.filter (λ a, (f a =? n)%N) (sort_by_desc f l)
  = List.filter (λ a, (f a =? n)%N) l.
Proof.
  induction l as [| x rest IH]; [done |].
  cbn [sort_by_desc foldr]. rewrite insert_by_desc_ties.
  cbn [List.filter]. unfold sort_by_desc in IH. by rewrite IH.
Qed.
End TableOrder.

(** ** The button that removes the empty workspaces *)

Section Page.
Context `{Runtime} (w : World).

(** A test that implies another one selects the same before and after
    the other one. *)
Lemma filter_filter_implied {A : Type} (p q : A → bool) (l : list A) :
  Forall (λ x, p x = true → q x = true) l →
  List.filter p (List.filter q l) = List.filter p l.
Proof.
  induction 1 as [| x rest Hx Hall IH]; [done |].
  cbn [List.filter]. destruct (q x) eqn:Hq.
  - cbn [List.filter]. by rewrite IH.
  - destruct (p x) eqn:Hp; [by specialize (Hx eq_refl) |]. done.
Qed.

(** A sound record without chats and composers has no logs. *)
Lemma empty_has_no_logs x :
  record_sound x →
  negb (hasChats x) && negb (hasComposers x) = true → (total_logs x =? 0)%N = true.
Proof.
  intros (_ & Hc & Hk) Hempty. apply andb_prop in Hempty as [Hc' Hk'].
  apply negb_true_iff in Hc', Hk'.
  destruct (Hc Hc') as [Hc0 _], (Hk Hk') as [Hk0 _].
  apply N.eqb_eq. unfold total_logs. lia.
Qed.

(** X18: the table of workspaces shows every record once, by descending
    [chatCount + composerCount], records with the same number of logs in
    the order of the scan; the sort, which reorders the loaded statistics
    in place, leaves the list of empty workspaces the button collects as
    it was. *)
Theorem workspace_table_order (details : list WorkspaceStats) :
  Permutation (sort_workspaces details) details
  ∧ StronglySorted (λ a b, (total_logs b ≤ total_logs a)%N) (sort_workspaces details)
  ∧ (∀ n, List.filter (λ x, (total_logs x =? n)%N) (sort_workspaces details)
          = List.filter (λ x, (total_logs x =? n)%N) details)
  ∧ (Forall record_sound details →
     emptyWorkspaces (sort_workspaces details) = emptyWorkspaces details).
Proof.
  unfold sort_workspaces. split_and!.
  - apply sort_by_desc_Permutation.
  - apply sort_by_desc_sorted.
  - intros n. apply sort_by_desc_ties.
  - intros Hsound. unfold emptyWorkspaces. f_equal.
    rewrite <- (filter_filter_implied _ (λ x, (total_logs x =? 0)%N) details).
    2:{ eapply Forall_impl; [exact Hsound |]. intros x Hx. by apply empty_has_no_logs. }
    rewrite <- (filter_filter_implied _ (λ x, (total_logs x =? 0)%N)
                  (sort_by_desc total_logs details)).
    2:{ rewrite sort_by_desc_Permutation.
        eapply Forall_impl; [exact Hsound |]. intros x Hx. by apply empty_has_no_logs. }
    by rewrite sort_by_desc_ties.
Qed.

(** The identifiers collected are those of the records without chats
    and composers. *)
Lemma elem_of_emptyWorkspaces id (details : list WorkspaceStats) :
  id ∈ emptyWorkspaces details ↔
  ∃ x, x ∈ details ∧ ws_id x = id ∧ hasChats x = false ∧ hasComposers x = false.
Proof.
  unfold emptyWorkspaces. rewrite list_elem_of_fmap. split.
  - intros (x & -> & Hx). apply list_elem_of_In, filter_In in Hx as [Hin Hp].
    apply andb_prop in Hp as [Hc Hk]. apply negb_true_iff in Hc, Hk.
    exists x. by rewrite list_elem_of_In.
  - intros (x & Hin & <- & Hc & Hk). exists x. split; [done |].
    apply list_elem_of_In, filter_In. rewrite <- list_elem_of_In.
    split; [done |]. by rewrite Hc, Hk.
Qed.

(** X19: on loaded statistics the button reports that nothing is to
    remove exactly when [workspacesWithNeither] is 0; otherwise it sends
    nothing when the user declines, and when the user confirms it sends
    [workspacesWithNeither] identifiers, those of the records that have
    neither chats nor composers. *)
Theorem removal_request_lists_the_empty_workspaces details global confirmed :
  let stats := summarize details global in
  match handleRemoveEmptyWorkspaces (Some stats) confirmed with
  | NotLoaded => False
  | NothingToRemove error =>
      error = "No empty workspaces to remove" ∧ workspacesWithNeither stats = 0%N
  | Declined => confirmed = false ∧ (0 < workspacesWithNeither stats)%N
  | Send request =>
      confirmed = true
      ∧ ∃ ids, request = IdList ids
        ∧ N.of_nat (length ids) = workspacesWithNeither stats
        ∧ (0 < workspacesWithNeither stats)%N
        ∧ ∀ id, id ∈ ids ↔
            ∃ x, x ∈ details ∧ ws_id x = id
                 ∧ hasChats x = false ∧ hasComposers x = false
  end.
Proof.
  cbn zeta. unfold handleRemoveEmptyWorkspaces. cbn [workspaceDetails summarize workspacesWithNeither].
  assert (Hlen : N.of_nat (length (emptyWorkspaces details))
                 = count_where (λ x, negb (hasChats x) && negb (hasComposers x)) details).
  { unfold emptyWorkspaces, count_where. by rewrite length_map. }
  destruct (length (emptyWorkspaces details) =? 0)%nat eqn:Hz.
  - apply Nat.eqb_eq in Hz. rewrite <- Hlen, Hz. done.
  - apply Nat.eqb_neq in Hz. destruct confirmed; simpl.
    + split; [done |]. exists (emptyWorkspaces details).
      split_and!; [done | done | lia |]. intros id. apply elem_of_emptyWorkspaces.
    + split; [done | lia].
Qed.

(** X20: the button and the pruner together: every workspace reported
    as removed, and every path deleted, belongs to a record of the loaded
    statistics that has neither chats nor composers. *)
Theorem page_removes_only_empty_workspaces stats ids (workspacePath : string) fs :
  WORKSPACE_PATH w = Some workspacePath → workspacePath ≠ "" →
  handleRemoveEmptyWorkspaces (Some stats) true = Send (IdList ids) →
  ∃ r fs',
    DELETE w (IdList ids) fs = (mkResponse 200 (RemovalBody r), fs')
    ∧ (∀ id, id ∈ removedWorkspaces r →
         ∃ x, x ∈ workspaceDetails stats ∧ ws_id x = id
              ∧ hasChats x = false ∧ hasComposers x = false)
    ∧ (∀ q, q ∈ present fs → q ∉ present fs' →
         ∃ x, x ∈ workspaceDetails stats
              ∧ hasChats x = false ∧ hasComposers x = false
              ∧ path_within (path_join [workspacePath; ws_id x]) q = true).
Proof.
  intros Hw Hne Hsend.
  assert (Hids : ids = emptyWorkspaces (workspaceDetails stats)).
  { unfold handleRemoveEmptyWorkspaces in Hsend.
    destruct (length (emptyWorkspaces (workspaceDetails stats)) =? 0)%nat; [done |].
    simpl in Hsend. by injection Hsend as <-. }
  eexists _, _. split.
  { unfold DELETE. rewrite Hw. simpl. rewrite (proj2 (String.eqb_neq _ _) Hne). reflexivity. }
  destruct (remove_workspaces_scope workspacePath ids (mkPrune fs [] []))
    as ((more & Hmore & Hsub) & _ & Hscope).
  simpl in Hmore, Hscope. split.
  - intros id Hid. simpl in Hid. rewrite Hmore in Hid.
    apply (λ H0, elem_of_sublist _ _ _ H0 Hsub) in Hid. rewrite Hids in Hid.
    by apply elem_of_emptyWorkspaces.
  - intros q Hq Hq'. destruct (Hscope q Hq Hq') as (id & Hid & _ & Hwithin).
    rewrite Hids in Hid. apply elem_of_emptyWorkspaces in Hid as (x & Hx & <- & Hc & Hk).
    by exists x.
Qed.
End Page.

(** ** Worked instances *)

Lemma largestEntries_are_the_largest_witness :
  scannable twelve_rows = true
  ∧ ∃ kept rest,
      Permutation (map sized (List.filter counted twelve_rows)) (kept ++ rest)%list
      ∧ largestEntries (analyze_entries twelve_rows) = map to_largest kept
      ∧ length kept = 10%nat
      ∧ ∀ e e', e ∈ kept → e' ∈ rest → (se_sizeMB e' ≤ se_sizeMB e)%N.
Proof.
  split; [vm_compute; reflexivity |].
  exact (largestEntries_are_the_largest twelve_rows eq_refl).
Defined.

Lemma coarse_type_shape_witness :
  coarse_type "foo:1" = "foo" ∧ coarse_type "plain" = "plain" ∧ coarse_type ":c" = "unknown".
Proof.
  destruct (coarse_type_shape "foo:1") as (_ & _ & Hprefix & _).
  destruct (coarse_type_shape "plain") as (_ & _ & _ & Hplain & _).
  destruct (coarse_type_shape ":c") as (_ & _ & _ & _ & Hcolon & _).
  split_and!.
  - exact (Hprefix "foo" "1" eq_refl eq_refl ltac:(discriminate)).
  - exact (Hplain eq_refl ltac:(discriminate)).
  - exact (Hcolon "c" eq_refl).
Defined.

Lemma category_determines_bucket_witness :
  coarse_type "bubbleId:1" = "bubbleId"
  ∧ coarse_type "composer.composerData" = "composer.composerData".
Proof.
  destruct (category_determines_bucket "bubbleId:1") as (_ & Hbubble & _).
  destruct (category_determines_bucket "composer.composerData")
    as (_ & _ & _ & _ & _ & _ & _ & Hmeta).
  split; [exact (Hbubble eq_refl) | exact (Hmeta eq_refl)].
Defined.

Lemma wellformed_chat_data_witness :
  ∃ record io',
    visit_dirent (H := sample_runtime) (sample_world wellformed_tables) "/ws" []
      (mkDirent "w1" true) io0
    = (Ok [record], io')
    ∧ hasChats record = true ∧ chatCount record = 0%N
    ∧ chatDataSizeMB record = 2%N.
Proof.
  exact (proj1 (wellformed_chat_data_is_counted (H := sample_runtime)
                  (sample_world wellformed_tables) "/ws" [] (mkDirent "w1" true)
                  [mkRow chat_key (Some "[]")] (mkRow chat_key (Some "[]")) "[]"
                  SampleArray 0%N io0
                  eq_refl eq_refl eq_refl eq_refl eq_refl eq_refl eq_refl
                  ltac:(discriminate) eq_refl) eq_refl).
Defined.

Lemma unusable_workspace_witness :
  visit_dirent (H := sample_runtime) (sample_world ∅) "/ws" [] (mkDirent "notes.txt" false) io0
  = (Ok [], io0)
  ∧ visit_dirent (H := sample_runtime) (sample_world ∅) "/ws" [] (mkDirent "w1" true) io0
    = (Ok [],
       mkIo ["/ws/w1/state.vscdb"]
         [Opened "/ws/w1/state.vscdb";
          QueriedOne "/ws/w1/state.vscdb" "ItemTable" chat_key]).
Proof.
  split.
  - exact (proj1 (unusable_workspace_is_skipped (H := sample_runtime) (sample_world ∅)
                    "/ws" [] (mkDirent "notes.txt" false) io0) (or_introl eq_refl)).
  - exact (proj2 (proj2 (unusable_workspace_is_skipped (H := sample_runtime)
                           (sample_world ∅) "/ws" [] (mkDirent "w1" true) io0))
             eq_refl eq_refl eq_refl eq_refl).
Defined.

Lemma statistics_status_witness :
  ∃ records global io',
    GET_statistics (H := sample_runtime) (sample_world wellformed_tables) io0
    = (Ok (mkResponse 200 (StatisticsBody (summarize records global))), io')
    ∧ length records = 1%nat.
Proof.
  destruct (proj2 (proj2 (statistics_status (H := sample_runtime)
                            (sample_world wellformed_tables) io0))
              ltac:(discriminate) [mkDirent "w1" true] eq_refl)
    as (records & global & io' & Hrun & io1 & Hscan & _).
  exists records, global, io'. split; [exact Hrun |].
  vm_compute in Hscan. by injection Hscan as <- _.
Defined.

Lemma entry_found_witness :
  GET_database_entry (H := sample_runtime) (sample_world wellformed_tables)
    (mkEntryRequest (Some chat_key) (Some "w1")) io0
  = (Ok (mkResponse 200
           (EntryBody (mkEntryView chat_key (Some "[]") (Parsed (H := sample_runtime) SampleArray)
                         (Some "w1") 2 "0.00 MB"))),
     mkIo [] [Opened "/ws/w1/state.vscdb";
              QueriedOne "/ws/w1/state.vscdb" "ItemTable" chat_key;
              Closed "/ws/w1/state.vscdb"]).
Proof.
  exact (entry_found (H := sample_runtime) (sample_world wellformed_tables)
           (mkEntryRequest (Some chat_key) (Some "w1")) io0 chat_key "/ws"
           [mkRow chat_key (Some "[]")] (mkRow chat_key (Some "[]")) "[]"
           eq_refl ltac:(discriminate) eq_refl ltac:(discriminate)
           eq_refl eq_refl eq_refl eq_refl eq_refl eq_refl).
Defined.

Lemma entry_hard_failures_witness :
  (GET_database_entry (H := sample_runtime) (sample_world ∅)
     (mkEntryRequest (Some "k") (Some "w1")) io0).1
  = Ok (mkResponse 500 (ErrorBody "Failed to get database entry")).
Proof.
  exact (proj2 (proj2 (entry_hard_failures (H := sample_runtime) (sample_world ∅)
                         (mkEntryRequest (Some "k") (Some "w1")) io0))
           "k" "/ws" eq_refl ltac:(discriminate) eq_refl ltac:(discriminate)
           eq_refl eq_refl eq_refl).
Defined.

Lemma entry_touches_no_database_early_witness :
  (GET_database_entry (H := sample_runtime) (sample_world ∅)
     (mkEntryRequest None (Some "global")) io0).2 = io0.
Proof.
  exact (entry_touches_no_database_early (H := sample_runtime) (sample_world ∅)
           (mkEntryRequest None (Some "global")) io0 (or_introl eq_refl)).
Defined.


Lemma pruner_is_idempotent_witness :
  ∃ r1 fs1 r2,
    DELETE (H := sample_runtime) (sample_world ∅) (IdList ["w2"; "w4"]) page_disk
    = (mkResponse 200 (RemovalBody r1), fs1)
    ∧ DELETE (H := sample_runtime) (sample_world ∅) (IdList ["w2"; "w4"]) fs1
      = (mkResponse 200 (RemovalBody r2), fs1)
    ∧ removedWorkspaces r2 = []
    ∧ removedCount r2 = 0%N
    ∧ length (errors r2) = 2%nat.
Proof.
  exact (pruner_is_idempotent (H := sample_runtime) (sample_world ∅) "/ws"
           ["w2"; "w4"] page_disk eq_refl ltac:(discriminate)).
Defined.



Lemma workspace_table_order_witness :
  map ws_id (sort_workspaces sample_details) = ["w3"; "w1"; "w2"; "w4"]
  ∧ emptyWorkspaces (sort_workspaces sample_details) = ["w2"; "w4"].
Proof.
  destruct (workspace_table_order sample_details) as (_ & _ & _ & Hempty).
  split; [reflexivity |]. rewrite Hempty; [reflexivity |].
  repeat (apply Forall_cons; split; [by repeat split |]). constructor.
Defined.

Lemma page_removes_only_empty_workspaces_witness :
  handleRemoveEmptyWorkspaces (Some (summarize sample_details initial_stats)) true
  = Send (IdList ["w2"; "w4"])
  ∧ ∃ r fs',
      DELETE (H := sample_runtime) (sample_world ∅) (IdList ["w2"; "w4"]) page_disk
      = (mkResponse 200 (RemovalBody r), fs')
      ∧ removedWorkspaces r = ["w2"; "w4"]
      ∧ present fs' = {[ "/ws/w1"; "/ws/w1/state.vscdb" ]}.
Proof.
  split; [reflexivity |].
  destruct (page_removes_only_empty_workspaces (H := sample_runtime) (sample_world ∅)
              (summarize sample_details initial_stats) ["w2"; "w4"] "/ws" page_disk
              eq_refl ltac:(discriminate) eq_refl)
    as (r & fs' & Hrun & _).
  exists r, fs'. split; [exact Hrun |].
  vm_compute in Hrun. injection Hrun as <- <-. split; vm_compute; reflexivity.
Defined.

Lemma retained_types_witness :
  scannable worked_example_rows = true
  ∧ entriesByType (analyze_entries worked_example_rows) !! "foo" = Some (Num 2)
  ∧ sampleKeys (analyze_entries worked_example_rows) !! "foo" = Some ["foo:1"; "foo:2"]
  ∧ entriesByType (analyze_entries worked_example_rows) !! "bar" = None.
Proof.
  assert (scannable worked_example_rows = true) as Hok by (vm_compute; reflexivity).
  split; [exact Hok |].
  destruct (retained_types_meet_the_threshold worked_example_rows "foo" Hok)
    as (Hfoo & Hlisted & _).
  destruct (retained_types_meet_the_threshold worked_example_rows "bar" Hok)
    as (Hbar & _).
  assert (is_Some (entriesByType (analyze_entries worked_example_rows) !! "foo")) as Hsome.
  { apply Hfoo. split; [discriminate |]. split.
    - intros Hnil. apply (f_equal length) in Hnil. vm_compute in Hnil. discriminate Hnil.
    - vm_compute. intros Hgt. discriminate Hgt. }
  destruct (Hlisted Hsome) as (Hcount & _ & Hkeys & _).
  split_and!.
  - rewrite Hcount. vm_compute. reflexivity.
  - rewrite Hkeys. vm_compute. reflexivity.
  - apply eq_None_not_Some. intros Hlisted'.
    destruct (proj1 Hbar Hlisted') as (_ & _ & Hle).
    vm_compute in Hle. apply Hle. reflexivity.
Defined.

Lemma rows_after_a_throw_witness :
  largestEntries
    (analyze_entries
       [mkRow "a:1" (Some "x"); mkRow "toString:1" (Some "y"); mkRow "b:1" (Some "zz")])
  = []
  ∧ otherEntries
      (analyze_entries
         [mkRow "a:1" (Some "x"); mkRow "toString:1" (Some "y"); mkRow "b:1" (Some "zz")])
    = 2%N
  ∧ totalSizeMB
      (analyze_entries
         [mkRow "a:1" (Some "x"); mkRow "toString:1" (Some "y"); mkRow "b:1" (Some "zz")])
    = 2%N.
Proof.
  destruct (rows_after_a_throw_are_not_seen [mkRow "a:1" (Some "x")]
              (mkRow "toString:1" (Some "y")) [mkRow "b:1" (Some "zz")]
              eq_refl eq_refl)
    as (_ & Hlargest & _ & Hother & Hsize & _).
  split_and!; [exact Hlargest | exact Hother | exact Hsize].
Defined.

Lemma totals_ignore_empty_workspaces_witness :
  totalChats (summarize [nth 0 sample_details (mkWorkspaceStats "" false false 0 0 None 0 0 0);
                         nth 2 sample_details (mkWorkspaceStats "" false false 0 0 None 0 0 0)]
                initial_stats)
  = totalChats (summarize sample_details initial_stats)
  ∧ totalWorkspaceDataSizeMB (summarize sample_details initial_stats) = 22%N.
Proof.
  destruct (totals_ignore_empty_workspaces sample_details initial_stats)
    as (Hchats & _ & _ & Hsize & _).
  { repeat (apply Forall_cons; split; [by repeat split |]). constructor. }
  split; [exact Hchats | exact Hsize].
Defined.
